(** * gosed: streaming in-place replacement on files

    A shallow embedding of [main.go] (package [gosed]): the [Replacer], its
    mapping table, [Reset], and the two replacement engines
    [DoSequentialReplace] and [DoChainReplace].

    The Go code is a sequence of calls into the operating system ([os.Stat],
    [os.OpenFile], [File.Close], [os.Rename], [os.Remove], [time.Now],
    [io.CopyBuffer]) interleaved with updates of the [replacerConfig] the
    receiver points to.  It is embedded as a state monad over

      - the [replacerConfig] behind the [*Replacer] pointer,
      - the world of the operating system, kept abstract behind the class
        [OS], so that every theorem holds for every behaviour of the system
        (every pattern of failures included), and
      - the log of the system calls made so far, each with its result.

    A run-time panic (index out of range) is an outcome of its own; deferred
    calls run on a panic as they do on a return. *)

From Stdlib Require Import ZArith Lia List Strings.String Strings.Byte Strings.Ascii.
From stdpp Require Import base option list gmap strings pretty.

Local Open Scope Z_scope.
Local Open Scope string_scope.
Local Open Scope list_scope.

(** ** Go values *)

(** [[]byte]. *)
Abbreviation bytes := (list byte).

#[global] Instance byte_eq_decision : EqDecision byte := Byte.byte_eq_dec.

(** [[]byte(s)] for a Go string [s]. *)
Definition bytes_of_string (s : string) : bytes := list_byte_of_string s.

(** Go's [int] and [int64] on a 64-bit platform: two's complement, 64 bits. *)
Definition wrap64 (z : Z) : Z := (z + 2 ^ 63) `mod` 2 ^ 64 - 2 ^ 63.

(** [int(x)] for [x : int64], and [int64(x)] for [x : int]. *)
Definition int_of_int64 (x : Z) : Z := wrap64 x.
Definition int64_of_int (x : Z) : Z := wrap64 x.

(** [a + b] on [int]. *)
Definition int_add (a b : Z) : Z := wrap64 (a + b).

(** The running total of the sequential engine: [count += wrote] from 0. *)
Definition int_sum (l : list Z) : Z := fold_left int_add l 0.

(** The mathematical sum, without wrap-around. *)
Definition Zsum (l : list Z) : Z := fold_right Z.add 0 l.

(** Go's [error] values: what matters here is whether one is returned and
    which one. *)
Inductive error : Type := Errorf (msg : string).

(** [fmt.Errorf("cannot replace empty string with new value")]. *)
Definition InvalidMapping : error :=
  Errorf "cannot replace empty string with new value".

(** [os.ErrInvalid], the result of a method of a nil [*os.File]. *)
Definition ErrInvalid : error := Errorf "invalid argument".

(** [os.FileMode] is a [uint32]; [Perm] keeps the nine permission bits. *)
Definition FileMode := Z.
Definition Perm (m : FileMode) : FileMode := Z.land m 511.

(** What [os.Stat] returns: [Size()] and [Mode()]. *)
Record FileInfo : Type := mkFileInfo { fi_Size : Z; fi_Mode : FileMode }.

(** Flags of [os.OpenFile] (the values of [syscall] on Linux). *)
Definition O_RDWR : Z := 2.
Definition O_CREATE : Z := 64.

(** An open [*os.File]. *)
Definition handle := nat.

(** ** Package [path] and [fmt.Sprintf] *)

Module path.

(** The elements of a path between slashes. *)
Fixpoint split_slash (s : string) : list string :=
  match s with
  | EmptyString => [EmptyString]
  | String c s' =>
      if Ascii.eqb c "/" then EmptyString :: split_slash s'
      else match split_slash s' with
           | x :: xs => String c x :: xs
           | [] => [String c EmptyString]
           end
  end.

(** One element of [Clean]'s scan; [out] holds the elements kept so far,
    the last one first.  Empty elements and [.] are dropped, [..] removes
    the element before it when there is one that is not [..], is dropped
    at the root, and is kept otherwise. *)
Definition clean_step (rooted : bool) (out : list string) (e : string)
  : list string :=
  if String.eqb e "" || String.eqb e "." then out
  else if String.eqb e ".." then
    match out with
    | top :: rest => if String.eqb top ".." then e :: out else rest
    | [] => if rooted then [] else [e]
    end
  else e :: out.

(** [path.Clean]. *)
Definition Clean (p : string) : string :=
  if String.eqb p "" then "."
  else
    let rooted := match p with String c _ => Ascii.eqb c "/" | _ => false end in
    let body :=
      String.concat "/" (rev (fold_left (clean_step rooted) (split_slash p) [])) in
    if rooted then "/" +:+ body
    else if String.eqb body "" then "." else body.

(** The index just after the last slash of [p] (0 when there is none). *)
Fixpoint after_last_slash (p : string) : nat :=
  match p with
  | EmptyString => 0
  | String c p' =>
      let k := after_last_slash p' in
      if (0 <? k)%nat then S k
      else if Ascii.eqb c "/" then 1%nat else 0%nat
  end.

(** [path.Split]: the directory (with its final slash) and the file. *)
Definition Split (p : string) : string * string :=
  let i := after_last_slash p in
  (String.substring 0 i p, String.substring i (String.length p - i) p).

(** [path.Dir]. *)
Definition Dir (p : string) : string := Clean (fst (Split p)).

(** The loop of [path.Join] over its elements; [buf] is the buffer. *)
Fixpoint join_loop (buf : string) (elem : list string) : string :=
  match elem with
  | [] => buf
  | e :: elem' =>
      if negb (String.eqb buf "") || negb (String.eqb e "") then
        join_loop ((if String.eqb buf "" then buf else buf +:+ "/") +:+ e) elem'
      else join_loop buf elem'
  end.

(** [path.Join]. *)
Definition Join (elem : list string) : string :=
  if forallb (String.eqb "") elem then "" else Clean (join_loop "" elem).

End path.

(** [fmt.Sprintf("tmp-gosed-%d", n)]. *)
Definition Sprintf_tmp_gosed (n : Z) : string := "tmp-gosed-" +:+ pretty n.

(** ** The substituting reader

    [BytesReplacingReader] is declared in a file of the package that is not
    part of the sources at hand; [main.go] builds readers with
    [NewBytesReplacingReader] and [Reset] and hands them to [io.CopyBuffer]. *)

(** Modelled from the spec: the [BytesReplacingReader] type, of which the
    sources only have the uses.  A reader holds its upstream source, the
    pattern and the replacement (spec, section 3); the upstream of the first
    reader is the buffered file, [bufio.NewReaderSize(input, size)]. *)
Inductive reader : Type :=
| BufioReader (f : handle) (size : Z)
| BytesReplacingReader (upstream : reader) (old new : bytes).

(** Run-time panics. *)
Inductive panic : Type :=
| IndexOutOfRange (i len : nat)
| EmptyPattern.

(** What a call yields: a return value or a panic. *)
Inductive outcome (A : Type) : Type :=
| Ret (a : A)
| Panic (p : panic).
Arguments Ret {A} a.
Arguments Panic {A} p.

(** Modelled from the spec: [NewBytesReplacingReader], absent from the
    sources.  "Construction requires len(pattern) > 0; construction with an
    empty pattern fails" (spec, section 4.1); [main.go] uses the call as a
    single value, so the failure is a panic. *)
Definition NewBytesReplacingReader (r : reader) (old new : bytes)
  : outcome reader :=
  match old with
  | [] => Panic EmptyPattern
  | _ :: _ => Ret (BytesReplacingReader r old new)
  end.

(** Modelled from the spec: the [Reset] method of the reader, absent from the
    sources.  It "clears carry-over state and rebinds the reader to operate
    on a new file and a new mapping" (spec, section 4.1). *)
Definition BytesReplacingReader_Reset (r : reader) (old new : bytes) : reader :=
  BytesReplacingReader r old new.

#[global] Instance outcome_ret : MRet outcome := λ A a, Ret a.
#[global] Instance outcome_bind : MBind outcome := λ A B f o,
  match o with
  | Ret a => f a
  | Panic p => Panic p
  end.

(** [xs[i]], with Go's bounds check. *)
Definition index_at {A} (xs : list A) (i : nat) : outcome A :=
  match xs !! i with
  | Some x => Ret x
  | None => Panic (IndexOutOfRange i (length xs))
  end.

(** The file at the bottom of a chain of readers. *)
Fixpoint chain_source (r : reader) : reader :=
  match r with
  | BufioReader _ _ => r
  | BytesReplacingReader up _ _ => chain_source up
  end.

(** The mappings of a chain, the one nearest to the file first. *)
Fixpoint chain_layers (r : reader) : list (bytes * bytes) :=
  match r with
  | BufioReader _ _ => []
  | BytesReplacingReader up old new => chain_layers up ++ [(old, new)]
  end.

(** Modelled from the spec: what a substituting reader produces from the
    bytes of its upstream.  Every occurrence of the pattern is replaced,
    matches are taken left to right and do not overlap, and a partial match
    at the end of the stream is passed through (spec, sections 4.1 and 8).
    [skip] counts the bytes of a match still to be dropped. *)
Fixpoint replace_from (old new : bytes) (skip : nat) (s : bytes) : bytes :=
  match s with
  | [] => []
  | c :: s' =>
      match skip with
      | S k => replace_from old new k s'
      | O =>
          match old with
          | [] => c :: replace_from old new 0 s'
          | _ :: old' =>
              if bool_decide (take (length old) s = old)
              then new ++ replace_from old new (length old') s'
              else c :: replace_from old new 0 s'
          end
      end
  end.

Definition replace_all (old new s : bytes) : bytes := replace_from old new 0 s.

(** The bytes a chain of readers produces when the file under it holds
    [data]. *)
Fixpoint reader_output (r : reader) (data : bytes) : bytes :=
  match r with
  | BufioReader _ _ => data
  | BytesReplacingReader up old new => replace_all old new (reader_output up data)
  end.

(** ** The Replacer *)

(** [replacerMappings]: two parallel slices. *)
Record replacerMappings : Type := mkMappings {
  Keys : list bytes;
  Indices : list bytes
}.

(** [replacerConfig].  [File] is a [*os.File] and may be nil. *)
Record replacerConfig : Type := mkConfig {
  File : option handle;
  FilePath : string;
  FileSize : Z;
  FilePerm : FileMode;
  Asynchronous : bool;
  Mappings : replacerMappings
}.

Definition set_File (f : option handle) (c : replacerConfig) : replacerConfig :=
  mkConfig f (FilePath c) (FileSize c) (FilePerm c) (Asynchronous c) (Mappings c).
Definition set_FileSize (n : Z) (c : replacerConfig) : replacerConfig :=
  mkConfig (File c) (FilePath c) n (FilePerm c) (Asynchronous c) (Mappings c).
Definition set_FilePerm (m : FileMode) (c : replacerConfig) : replacerConfig :=
  mkConfig (File c) (FilePath c) (FileSize c) m (Asynchronous c) (Mappings c).
Definition set_Keys (k : list bytes) (c : replacerConfig) : replacerConfig :=
  mkConfig (File c) (FilePath c) (FileSize c) (FilePerm c) (Asynchronous c)
           (mkMappings k (Indices (Mappings c))).
Definition set_Indices (v : list bytes) (c : replacerConfig) : replacerConfig :=
  mkConfig (File c) (FilePath c) (FileSize c) (FilePerm c) (Asynchronous c)
           (mkMappings (Keys (Mappings c)) v).

(** The invariant of the mapping table: the two slices go in parallel. *)
Definition table_ok (c : replacerConfig) : Prop :=
  length (Keys (Mappings c)) = length (Indices (Mappings c)).

(** [NewMapping]: the table is only touched by a registration, so the
    method is a function from the configuration to the new one and the
    error. *)
Definition NewMapping (oldString newString : bytes) (c : replacerConfig)
  : replacerConfig * option error :=
  match length oldString with
  | O => (c, Some InvalidMapping)
  | S _ =>
      let c1 := set_Keys (Keys (Mappings c) ++ [oldString]) c in
      let c2 := set_Indices (Indices (Mappings c1) ++ [newString]) c1 in
      (c2, None)
  end.

(** [NewStringMapping]. *)
Definition NewStringMapping (oldString newString : string) (c : replacerConfig)
  : replacerConfig * option error :=
  if String.eqb oldString "" then (c, Some InvalidMapping)
  else
    let c1 := set_Keys (Keys (Mappings c) ++ [bytes_of_string oldString]) c in
    let c2 := set_Indices (Indices (Mappings c1) ++ [bytes_of_string newString]) c1 in
    (c2, None).

(** ** The chain of readers of [DoChainReplace]

    The lines of [DoChainReplace] that build the chain read the table and
    call the constructor; they neither call the system nor write to the
    configuration, so they are a function of the table and the input. *)

(** The [for index, key := range Keys] loop of [DoChainReplace], from
    [index0] on: the first mapping is skipped, every other one wraps the
    chain built so far. *)
Fixpoint chain_loop (indices : list bytes) (index0 : nat) (keys : list bytes)
    (replacer : reader) : outcome reader :=
  match keys with
  | [] => Ret replacer
  | key :: keys' =>
      match index0 with
      | O => chain_loop indices 1 keys' replacer
      | S _ =>
          new ← index_at indices index0;
          replacer' ← NewBytesReplacingReader replacer key new;
          chain_loop indices (S index0) keys' replacer'
      end
  end.

(** The reader on [Keys[0]] and [Indices[0]] over the buffered input, then
    the loop. *)
Definition build_chain (m : replacerMappings) (input : handle) : outcome reader :=
  key0 ← index_at (Keys m) 0;
  new0 ← index_at (Indices m) 0;
  first ← NewBytesReplacingReader (BufioReader input 8192) key0 new0;
  chain_loop (Indices m) 0 (Keys m) first.

(** ** The operating system

    The calls [main.go] makes, as functions on an abstract world [W].  Each
    may fail; nothing is assumed about when. [io_CopyBuffer dst src] is
    [io.CopyBuffer(dst, src, buf)]: it returns the number of bytes written
    to [dst] and the first error met, if any. *)
Class OS (W : Type) : Type := {
  os_Stat : string → W → (FileInfo + error) * W;
  os_OpenFile : string → Z → FileMode → W → (handle + error) * W;
  os_Close : handle → W → option error * W;
  os_Rename : string → string → W → option error * W;
  os_Remove : string → W → option error * W;
  time_Now_UnixNano : W → Z * W;
  io_CopyBuffer : handle → reader → W → (Z * option error) * W
}.

(** The log: one entry per call, with what the call returned. *)
Inductive event : Type :=
| ENow (t : Z)
| EStat (name : string) (r : FileInfo + error)
| EOpenFile (name : string) (flag : Z) (perm : FileMode) (r : handle + error)
| EClose (f : handle) (r : option error)
| ECopyBuffer (dst : handle) (src : reader) (wrote : Z) (r : option error)
| ERemove (name : string) (r : option error)
| ERename (oldpath newpath : string) (r : option error).

(** The state a method of [*Replacer] runs in. *)
Record state (W : Type) : Type := mkState {
  config : replacerConfig;
  world : W;
  calls : list event
}.
Arguments mkState {W} _ _ _.
Arguments config {W} _.
Arguments world {W} _.
Arguments calls {W} _.

(** Computations: from a state to an outcome and the state left behind. *)
Definition M (W A : Type) : Type := state W → outcome A * state W.

#[global] Instance M_ret {W} : MRet (M W) := λ A a s, (Ret a, s).
#[global] Instance M_bind {W} : MBind (M W) := λ A B f m s,
  match m s with
  | (Ret a, s1) => f a s1
  | (Panic p, s1) => (Panic p, s1)
  end.

Definition raise {W A} (p : panic) : M W A := λ s, (Panic p, s).

Definition lift {W A} (o : outcome A) : M W A := λ s, (o, s).

(** [defer d; body]: [d] runs when [body] is left, by a return or a panic. *)
Definition defer {W A} (d : M W unit) (body : M W A) : M W A := λ s,
  let (r, s1) := body s in (r, snd (d s1)).

Definition get_config {W} : M W replacerConfig := λ s, (Ret (config s), s).

Definition modify_config {W} (f : replacerConfig → replacerConfig) : M W unit :=
  λ s, (Ret tt, mkState (f (config s)) (world s) (calls s)).


Section Calls.
Context {W : Type} `{!OS W}.

Definition logged (e : event) (w : W) (s : state W) : state W :=
  mkState (config s) w (calls s ++ [e]).

Definition call_Now : M W Z := λ s,
  let (t, w) := time_Now_UnixNano (world s) in (Ret t, logged (ENow t) w s).

Definition call_Stat (name : string) : M W (FileInfo + error) := λ s,
  let (r, w) := os_Stat name (world s) in (Ret r, logged (EStat name r) w s).

Definition call_OpenFile (name : string) (flag : Z) (perm : FileMode)
  : M W (handle + error) := λ s,
  let (r, w) := os_OpenFile name flag perm (world s) in
  (Ret r, logged (EOpenFile name flag perm r) w s).

Definition call_Close (f : handle) : M W (option error) := λ s,
  let (r, w) := os_Close f (world s) in (Ret r, logged (EClose f r) w s).

(** [f.Close()] for an [f] that may be nil: no call is made then. *)
Definition File_Close (f : option handle) : M W (option error) :=
  match f with
  | Some h => call_Close h
  | None => mret (Some ErrInvalid)
  end.

Definition call_Rename (oldpath newpath : string) : M W (option error) := λ s,
  let (r, w) := os_Rename oldpath newpath (world s) in
  (Ret r, logged (ERename oldpath newpath r) w s).

Definition call_Remove (name : string) : M W (option error) := λ s,
  let (r, w) := os_Remove name (world s) in (Ret r, logged (ERemove name r) w s).

(** The count is an [int64]. *)
Definition call_CopyBuffer (dst : handle) (src : reader)
  : M W (Z * option error) := λ s,
  let '((n, r), w) := io_CopyBuffer dst src (world s) in
  (Ret (wrap64 n, r), logged (ECopyBuffer dst src (wrap64 n) r) w s).

(** [NewReplacer]: there is no Replacer yet, so it runs on the world and
    the log alone. *)
Definition NewReplacer (fileName : string) (w : W) (l : list event)
  : (replacerConfig + error) * W * list event :=
  let (r, w1) := os_Stat fileName w in
  let l1 := l ++ [EStat fileName r] in
  match r with
  | inr err => (inr err, w1, l1)
  | inl fd =>
      let (r2, w2) := os_OpenFile fileName O_RDWR (Perm (fi_Mode fd)) w1 in
      let l2 := l1 ++ [EOpenFile fileName O_RDWR (Perm (fi_Mode fd)) r2] in
      match r2 with
      | inr err => (inr err, w2, l2)
      | inl fi =>
          (inl (mkConfig (Some fi) fileName (fi_Size fd) (Perm (fi_Mode fd))
                         false (mkMappings [] [])), w2, l2)
      end
  end.

(** [Reset]. *)
Definition Reset : M W (option error) :=
  c ← get_config;
  err ← File_Close (File c);
  match err with
  | Some e => mret (Some e)
  | None =>
      r ← call_Stat (FilePath c);
      match r with
      | inr e => mret (Some e)
      | inl fd =>
          r ← call_OpenFile (FilePath c) O_RDWR (Perm (fi_Mode fd));
          modify_config (set_File (match r with inl f => Some f | inr _ => None end));;
          match r with
          | inr e => mret (Some e)
          | inl _ =>
              modify_config (λ c, set_Keys (take 0 (Keys (Mappings c))) c);;
              modify_config (λ c, set_Indices (take 0 (Indices (Mappings c))) c);;
              modify_config (set_FilePerm (Perm (fi_Mode fd)));;
              mret None
          end
      end
  end.

(** The deferred function of both engines: it is handed [input] and
    [output] and closes [input] twice. *)
Definition deferred_close (input output : handle) : M W unit :=
  call_Close input;; call_Close input;; mret tt.

(** The closure [DoSingleReplace] of [DoSequentialReplace]: one pass. *)
Definition DoSingleReplace (old new : bytes) : M W (Z * option error) :=
  c ← get_config;
  t ← call_Now;
  let tmpFile := path.Join [path.Dir (FilePath c); Sprintf_tmp_gosed t] in
  r ← call_OpenFile (FilePath c) O_RDWR (FilePerm c);
  match r with
  | inr err => mret (0, Some err)
  | inl input =>
      r ← call_OpenFile tmpFile (Z.lor O_RDWR O_CREATE) (FilePerm c);
      match r with
      | inr err => mret (0, Some err)
      | inl output =>
          defer (deferred_close input output)
            (let replacer :=
               BytesReplacingReader_Reset (BufioReader input 8192) old new in
             '(wrote, err) ← call_CopyBuffer output replacer;
             match err with
             | Some err => mret (0, Some err)
             | None =>
                 err ← call_Rename tmpFile (FilePath c);
                 match err with
                 | Some err => mret (0, Some err)
                 | None =>
                     modify_config (set_FileSize wrote);;
                     mret (int_of_int64 wrote, None)
                 end
             end)
      end
  end.

(** The [for index, key := range Keys] loop of [DoSequentialReplace], from
    [index] on; it yields [count] and the error that ended it, if any. *)
Fixpoint sequential_loop (index0 : nat) (keys : list bytes) (count : Z)
  : M W (Z * option error) :=
  match keys with
  | [] => mret (count, None)
  | key :: keys' =>
      c ← get_config;
      new ← lift (index_at (Indices (Mappings c)) index0);
      '(wrote, err) ← DoSingleReplace key new;
      match err with
      | Some err => mret (count, Some err)
      | None =>
          modify_config (set_FileSize (int64_of_int wrote));;
          sequential_loop (S index0) keys' (int_add count wrote)
      end
  end.

(** [DoSequentialReplace]. *)
Definition DoSequentialReplace : M W (Z * option error) :=
  c ← get_config;
  '(count, err) ← sequential_loop 0 (Keys (Mappings c)) 0;
  match err with
  | Some err => mret (count, Some err)
  | None =>
      modify_config (λ c, set_Indices (take 0 (Indices (Mappings c))) c);;
      modify_config (λ c, set_Keys (take 0 (Keys (Mappings c))) c);;
      mret (count, None)
  end.

(** [DoChainReplace]. *)
Definition DoChainReplace : M W (Z * option error) :=
  c ← get_config;
  t ← call_Now;
  let tmpfile := Sprintf_tmp_gosed t in
  r ← call_OpenFile (FilePath c) O_RDWR (FilePerm c);
  match r with
  | inr err => mret (0, Some err)
  | inl input =>
      r ← call_OpenFile tmpfile (Z.lor O_RDWR O_CREATE) (FilePerm c);
      match r with
      | inr err => mret (0, Some err)
      | inl output =>
          defer (deferred_close input output)
            (replacer ← lift (build_chain (Mappings c) input);
             '(wrote, err) ← call_CopyBuffer output replacer;
             match err with
             | Some err => mret (0, Some err)
             | None =>
                 err ← call_Remove (FilePath c);
                 match err with
                 | Some err => mret (0, Some err)
                 | None =>
                     err ← call_Rename tmpfile (FilePath c);
                     match err with
                     | Some err => mret (0, Some err)
                     | None =>
                         modify_config (set_FileSize wrote);;
                         modify_config (λ c, set_Indices (take 0 (Indices (Mappings c))) c);;
                         modify_config (λ c, set_Keys (take 0 (Keys (Mappings c))) c);;
                         mret (int_of_int64 wrote, None)
                     end
                 end
             end)
      end
  end.

(** [ReplaceChained] and [Replace]. *)
Definition ReplaceChained : M W (Z * option error) := DoChainReplace.
Definition Replace : M W (Z * option error) := DoSequentialReplace.

End Calls.

(** ** A file system to run the code on

    A small POSIX-like instance of [OS]: directory entries name inodes, open
    files refer to inodes (so a file renamed over or removed stays readable
    through the handles opened before), the clock ticks at every reading,
    and the device has a bounded number of free bytes, which makes a copy
    fail half-way.  It serves to evaluate the engines on concrete inputs. *)
Module Sim.

Record file : Type := mkFile { data : bytes; mode : FileMode }.

Record World : Type := mkWorld {
  dir : gmap string nat;
  inodes : list file;
  fds : list (nat * bool);
  clock : Z;
  free : nat
}.

Definition ENOENT : error := Errorf "no such file or directory".
Definition ErrClosed : error := Errorf "file already closed".
Definition ENOSPC : error := Errorf "no space left on device".

(** The file a name leads to. *)
Definition lookup_file (name : string) (w : World) : option file :=
  ino ← dir w !! name; inodes w !! ino.

Definition Stat (name : string) (w : World) : (FileInfo + error) * World :=
  match lookup_file name w with
  | Some f => (inl (mkFileInfo (Z.of_nat (length (data f))) (mode f)), w)
  | None => (inr ENOENT, w)
  end.

(** A new descriptor on inode [ino]; the handle is its index. *)
Definition open_inode (ino : nat) (w : World) : handle * World :=
  (length (fds w),
   mkWorld (dir w) (inodes w) (fds w ++ [(ino, true)]) (clock w) (free w)).

Definition OpenFile (name : string) (flag : Z) (perm : FileMode) (w : World)
  : (handle + error) * World :=
  match dir w !! name with
  | Some ino => let (h, w1) := open_inode ino w in (inl h, w1)
  | None =>
      if Z.testbit flag 6 then
        let ino := length (inodes w) in
        let w1 := mkWorld (<[name := ino]> (dir w)) (inodes w ++ [mkFile [] perm])
                          (fds w) (clock w) (free w) in
        let (h, w2) := open_inode ino w1 in (inl h, w2)
      else (inr ENOENT, w)
  end.

Definition Close (f : handle) (w : World) : option error * World :=
  match fds w !! f with
  | Some (ino, true) =>
      (None, mkWorld (dir w) (inodes w) (<[f := (ino, false)]> (fds w))
                     (clock w) (free w))
  | Some (_, false) => (Some ErrClosed, w)
  | None => (Some ErrInvalid, w)
  end.

Definition Rename (oldpath newpath : string) (w : World) : option error * World :=
  match dir w !! oldpath with
  | Some ino =>
      (None, mkWorld (<[newpath := ino]> (delete oldpath (dir w))) (inodes w)
                     (fds w) (clock w) (free w))
  | None => (Some ENOENT, w)
  end.

Definition Remove (name : string) (w : World) : option error * World :=
  match dir w !! name with
  | Some _ =>
      (None, mkWorld (delete name (dir w)) (inodes w) (fds w) (clock w) (free w))
  | None => (Some ENOENT, w)
  end.

Definition Now (w : World) : Z * World :=
  (clock w, mkWorld (dir w) (inodes w) (fds w) (clock w + 1) (free w)).

(** The bytes behind an open handle. *)
Definition read_handle (f : handle) (w : World) : option bytes :=
  match fds w !! f with
  | Some (ino, true) => data <$> inodes w !! ino
  | _ => None
  end.

(** The copy reads the file under the chain to its end, and writes what the
    chain produces at the start of [dst], as far as the free space goes. *)
Definition CopyBuffer (dst : handle) (src : reader) (w : World)
  : (Z * option error) * World :=
  match chain_source src with
  | BufioReader f _ =>
      match read_handle f w, fds w !! dst with
      | Some input, Some (ino, true) =>
          match inodes w !! ino with
          | Some out =>
              let produced := reader_output src input in
              let n := Nat.min (length produced) (free w) in
              let out' := mkFile (take n produced ++ drop n (data out)) (mode out) in
              ((Z.of_nat n,
                if (n <? length produced)%nat then Some ENOSPC else None),
               mkWorld (dir w) (<[ino := out']> (inodes w)) (fds w) (clock w)
                       (free w - n)%nat)
          | None => ((0, Some ErrInvalid), w)
          end
      | _, _ => ((0, Some ErrClosed), w)
      end
  | BytesReplacingReader _ _ _ => ((0, Some ErrInvalid), w)
  end.

#[global] Instance sim_os : OS World := {|
  os_Stat := Stat;
  os_OpenFile := OpenFile;
  os_Close := Close;
  os_Rename := Rename;
  os_Remove := Remove;
  time_Now_UnixNano := Now;
  io_CopyBuffer := CopyBuffer
|}.

(** A world with one file and nothing open. *)
Definition one_file (name : string) (content : string) (perm : FileMode)
    (now : Z) (space : nat) : World :=
  mkWorld {[ name := 0%nat ]} [mkFile (bytes_of_string content) perm] [] now space.

(** The content of a file, as a string. *)
Definition content (name : string) (w : World) : option string :=
  (λ f, string_of_list_byte (data f)) <$> lookup_file name w.

(** A Replacer on [name] with the mappings [ms], as [NewReplacer] and
    [NewStringMapping] leave it; [None] when one of them fails. *)
Definition replacer_on (name : string) (ms : list (string * string)) (w : World)
  : option (state World) :=
  match NewReplacer name w [] with
  | (inl c, w1, l) =>
      match
        foldl (λ (oc : option replacerConfig) '(old, new),
                 c ← oc;
                 match NewStringMapping old new c with
                 | (c', None) => Some c'
                 | (_, Some _) => None
                 end) (Some c) ms
      with
      | Some c' => Some (mkState c' w1 l)
      | None => None
      end
  | (inr _, _, _) => None
  end.

(** The Replacer on [/data/f.txt], a file of 11 bytes, with the mappings
    [ms], at time 1000 and with [space] free bytes on the device. *)
Definition demo (ms : list (string * string)) (space : nat) : state World :=
  match replacer_on "/data/f.txt" ms
          (one_file "/data/f.txt" "hello world" 420 1000 space) with
  | Some s => s
  | None => mkState (mkConfig None "" 0 0 false (mkMappings [] []))
                    (mkWorld ∅ [] [] 0 0) []
  end.

(** The state [s] once another process has removed the working file. *)
Definition file_gone (s : state World) : state World :=
  mkState (config s) (Remove (FilePath (config s)) (world s)).2 (calls s).

(** [Sim] with faults: opens refused by [deny_open] (given the name and
    the flags) and renames refused when [deny_rename] is set fail with
    "permission denied"; everything else is as in [sim_os].  Not an
    instance for resolution: it is named where it is used. *)
Definition EACCES : error := Errorf "permission denied".

Record faults : Type := mkFaults {
  deny_open : string → Z → bool;
  deny_rename : bool
}.

Definition faulty (f : faults) : OS World := {|
  os_Stat := Stat;
  os_OpenFile := λ name flag perm w,
    if deny_open f name flag then (inr EACCES, w) else OpenFile name flag perm w;
  os_Close := Close;
  os_Rename := λ oldpath newpath w,
    if deny_rename f then (Some EACCES, w) else Rename oldpath newpath w;
  os_Remove := Remove;
  time_Now_UnixNano := Now;
  io_CopyBuffer := CopyBuffer
|}.

(** No file can be opened. *)
Definition no_open : faults := mkFaults (λ _ _, true) false.

(** No file can be created: opens with [O_CREATE] are refused. *)
Definition no_create : faults := mkFaults (λ _ flag, Z.testbit flag 6) false.

(** No file can be renamed. *)
Definition no_rename : faults := mkFaults (λ _ _, false) true.

End Sim.

(** ** Reading the log *)

(** The handles closed, in the order of the calls. *)
Fixpoint closed (l : list event) : list handle :=
  match l with
  | [] => []
  | EClose f _ :: l' => f :: closed l'
  | _ :: l' => closed l'
  end.

(** The handles opened (the opens that succeeded), in the order of the
    calls. *)
Fixpoint opened (l : list event) : list handle :=
  match l with
  | [] => []
  | EOpenFile _ _ _ (inl f) :: l' => f :: opened l'
  | _ :: l' => opened l'
  end.

(** Both engines open their files in pairs, the input and then the output.
    [inputs_twice] lists the first handle of each pair twice and leaves the
    second out, as well as an input whose output could not be opened. *)
Fixpoint inputs_twice (hs : list handle) : list handle :=
  match hs with
  | input :: _ :: hs' => input :: input :: inputs_twice hs'
  | _ => []
  end.

(** The names of the files opened with [O_CREATE]: the scratch files. *)
Fixpoint created (l : list event) : list string :=
  match l with
  | [] => []
  | EOpenFile name flag _ _ :: l' =>
      if Z.testbit flag 6 then name :: created l' else created l'
  | _ :: l' => created l'
  end.

(** The byte counts of the copies, in the order of the calls. *)
Fixpoint copy_counts (l : list event) : list Z :=
  match l with
  | [] => []
  | ECopyBuffer _ _ n _ :: l' => n :: copy_counts l'
  | _ :: l' => copy_counts l'
  end.

(** The byte counts of the passes that were completed: a copy without error
    followed at once by a rename without error. *)
Fixpoint completed_counts (l : list event) : list Z :=
  match l with
  | [] => []
  | e :: l' =>
      match e, l' with
      | ECopyBuffer _ _ n None, ERename _ _ None :: _ => n :: completed_counts l'
      | _, _ => completed_counts l'
      end
  end.

(** The byte counts of the copies that ended with an error. *)
Fixpoint failed_counts (l : list event) : list Z :=
  match l with
  | [] => []
  | ECopyBuffer _ _ n (Some _) :: l' => n :: failed_counts l'
  | _ :: l' => failed_counts l'
  end.

(** A result of a replace operation that carries an error. *)
Definition failed (r : outcome (Z * option error)) (n : Z) (e : error) : Prop :=
  r = Ret (n, Some e).

(** A result of a replace operation that carries none. *)
Definition succeeded (r : outcome (Z * option error)) (n : Z) : Prop :=
  r = Ret (n, None).

(** The configuration with [(old, new)] appended to its table. *)
Definition with_mapping (old new : bytes) (c : replacerConfig) : replacerConfig :=
  mkConfig (File c) (FilePath c) (FileSize c) (FilePerm c) (Asynchronous c)
           (mkMappings (Keys (Mappings c) ++ [old]) (Indices (Mappings c) ++ [new])).

(** The table is empty. *)
Definition table_cleared (c : replacerConfig) : Prop :=
  Keys (Mappings c) = [] ∧ Indices (Mappings c) = [].

(** The configuration a successful replace leaves: the size recorded and
    both slices of the table cut to length 0. *)
Definition after_replace (n : Z) (c : replacerConfig) : replacerConfig :=
  mkConfig (File c) (FilePath c) n (FilePerm c) (Asynchronous c) (mkMappings [] []).

(** ** The shape of a run

    The calls of a pass and of a whole run, case by case, for a working file
    [name] with permissions [perm]. *)
Section Shapes.
Variable name : string.
Variable perm : FileMode.

(** The scratch file of a pass of the sequential engine that starts at [t]. *)
Definition scratch_of_pass (t : Z) : string :=
  path.Join [path.Dir name; Sprintf_tmp_gosed t].

(** A pass of the sequential engine on [(old, new)] that writes [n] bytes and
    puts the scratch file in place. *)
Inductive pass_done (old new : bytes) (n : Z) : list event → Prop :=
| pass_done_intro t input output r1 r2 :
    pass_done old new n
      [ENow t;
       EOpenFile name O_RDWR perm (inl input);
       EOpenFile (scratch_of_pass t) (Z.lor O_RDWR O_CREATE) perm (inl output);
       ECopyBuffer output (BytesReplacingReader (BufioReader input 8192) old new) n None;
       ERename (scratch_of_pass t) name None;
       EClose input r1; EClose input r2].

(** A pass of the sequential engine on [(old, new)] that ends with [e]. *)
Inductive pass_failed (old new : bytes) (e : error) : list event → Prop :=
| pass_no_input t :
    pass_failed old new e
      [ENow t; EOpenFile name O_RDWR perm (inr e)]
| pass_no_output t input :
    pass_failed old new e
      [ENow t;
       EOpenFile name O_RDWR perm (inl input);
       EOpenFile (scratch_of_pass t) (Z.lor O_RDWR O_CREATE) perm (inr e)]
| pass_copy_failed t input output n r1 r2 :
    pass_failed old new e
      [ENow t;
       EOpenFile name O_RDWR perm (inl input);
       EOpenFile (scratch_of_pass t) (Z.lor O_RDWR O_CREATE) perm (inl output);
       ECopyBuffer output (BytesReplacingReader (BufioReader input 8192) old new) n (Some e);
       EClose input r1; EClose input r2]
| pass_rename_failed t input output n r1 r2 :
    pass_failed old new e
      [ENow t;
       EOpenFile name O_RDWR perm (inl input);
       EOpenFile (scratch_of_pass t) (Z.lor O_RDWR O_CREATE) perm (inl output);
       ECopyBuffer output (BytesReplacingReader (BufioReader input 8192) old new) n None;
       ERename (scratch_of_pass t) name (Some e);
       EClose input r1; EClose input r2].

(** Completed passes in a row: their mappings, their byte counts (each an
    [int64]) and their calls. *)
Inductive passes_done : list (bytes * bytes) → list Z → list event → Prop :=
| passes_nil : passes_done [] [] []
| passes_cons old new n l ms ns ls :
    wrap64 n = n →
    pass_done old new n l →
    passes_done ms ns ls →
    passes_done ((old, new) :: ms) (n :: ns) (l ++ ls).

(** A run of the chained engine on the table [m]: its outcome and its
    calls. *)
Inductive chain_run (m : replacerMappings)
  : outcome (Z * option error) → list event → Prop :=
| chain_no_input t e :
    chain_run m (Ret (0, Some e))
      [ENow t; EOpenFile name O_RDWR perm (inr e)]
| chain_no_output t input e :
    chain_run m (Ret (0, Some e))
      [ENow t;
       EOpenFile name O_RDWR perm (inl input);
       EOpenFile (Sprintf_tmp_gosed t) (Z.lor O_RDWR O_CREATE) perm (inr e)]
| chain_panicked t input output p r1 r2 :
    build_chain m input = Panic p →
    chain_run m (Panic p)
      [ENow t;
       EOpenFile name O_RDWR perm (inl input);
       EOpenFile (Sprintf_tmp_gosed t) (Z.lor O_RDWR O_CREATE) perm (inl output);
       EClose input r1; EClose input r2]
| chain_copy_failed t input output replacer n e r1 r2 :
    build_chain m input = Ret replacer →
    chain_run m (Ret (0, Some e))
      [ENow t;
       EOpenFile name O_RDWR perm (inl input);
       EOpenFile (Sprintf_tmp_gosed t) (Z.lor O_RDWR O_CREATE) perm (inl output);
       ECopyBuffer output replacer n (Some e);
       EClose input r1; EClose input r2]
| chain_remove_failed t input output replacer n e r1 r2 :
    build_chain m input = Ret replacer →
    chain_run m (Ret (0, Some e))
      [ENow t;
       EOpenFile name O_RDWR perm (inl input);
       EOpenFile (Sprintf_tmp_gosed t) (Z.lor O_RDWR O_CREATE) perm (inl output);
       ECopyBuffer output replacer n None;
       ERemove name (Some e);
       EClose input r1; EClose input r2]
| chain_rename_failed t input output replacer n e r1 r2 :
    build_chain m input = Ret replacer →
    chain_run m (Ret (0, Some e))
      [ENow t;
       EOpenFile name O_RDWR perm (inl input);
       EOpenFile (Sprintf_tmp_gosed t) (Z.lor O_RDWR O_CREATE) perm (inl output);
       ECopyBuffer output replacer n None;
       ERemove name None;
       ERename (Sprintf_tmp_gosed t) name (Some e);
       EClose input r1; EClose input r2]
| chain_done t input output replacer n r1 r2 :
    build_chain m input = Ret replacer →
    wrap64 n = n →
    chain_run m (Ret (n, None))
      [ENow t;
       EOpenFile name O_RDWR perm (inl input);
       EOpenFile (Sprintf_tmp_gosed t) (Z.lor O_RDWR O_CREATE) perm (inl output);
       ECopyBuffer output replacer n None;
       ERemove name None;
       ERename (Sprintf_tmp_gosed t) name None;
       EClose input r1; EClose input r2].

End Shapes.

(** The calls made between the states [s] and [s']. *)
Definition new_calls {W} (s s' : state W) : list event :=
  drop (length (calls s)) (calls s').

(** The bytes written to scratch files between [s] and [s']. *)
Definition bytes_written {W} (s s' : state W) : Z := Zsum (copy_counts (new_calls s s')).

(** The count that comes with an error is the number of bytes written. *)
Definition returns_bytes_written {W} (r : outcome (Z * option error)) (s s' : state W)
  : Prop :=
  ∀ n e, failed r n e → n = bytes_written s s'.

(** No rename in [l] unless [name] was removed before; [removed] tells
    whether it was removed before [l]. *)
Fixpoint renames_after_remove (name : string) (removed : bool) (l : list event)
  : bool :=
  match l with
  | [] => true
  | ERemove p None :: l' =>
      renames_after_remove name (removed || String.eqb p name) l'
  | ERename _ _ _ :: l' => removed && renames_after_remove name removed l'
  | _ :: l' => renames_after_remove name removed l'
  end.

(** ** Further readings of the log and of the table *)

(** The mapping of each copy, that of the outermost reader of its source,
    in the order of the calls. *)
Fixpoint copy_mappings (l : list event) : list (bytes * bytes) :=
  match l with
  | [] => []
  | ECopyBuffer _ (BytesReplacingReader _ old new) _ _ :: l' =>
      (old, new) :: copy_mappings l'
  | _ :: l' => copy_mappings l'
  end.

(** The permissions handed to [os.OpenFile], in the order of the calls. *)
Fixpoint open_perms (l : list event) : list FileMode :=
  match l with
  | [] => []
  | EOpenFile _ _ perm _ :: l' => perm :: open_perms l'
  | _ :: l' => open_perms l'
  end.

(** The times read, in the order of the calls. *)
Fixpoint times (l : list event) : list Z :=
  match l with
  | [] => []
  | ENow t :: l' => t :: times l'
  | _ :: l' => times l'
  end.

Definition is_Stat (e : event) : bool :=
  match e with EStat _ _ => true | _ => false end.

Definition is_Remove (e : event) : bool :=
  match e with ERemove _ _ => true | _ => false end.

Definition is_Rename (e : event) : bool :=
  match e with ERename _ _ _ => true | _ => false end.

(** Every key of the table is a non-empty pattern. *)
Definition keys_nonempty (c : replacerConfig) : Prop :=
  Forall (λ key, key ≠ []) (Keys (Mappings c)).

(** A caller registering the pairs of strings [ms] one after the other
    with [NewStringMapping], going on after a registration that is refused.
    Each call stores [[]byte(oldString)] and [[]byte(newString)], slices
    made by the call itself, so the table shares no memory with the
    caller. *)
Definition register_all_strings (ms : list (string * string)) (c : replacerConfig)
  : replacerConfig :=
  foldl (λ c '(old, new), (NewStringMapping old new c).1) c ms.

Arguments path.Join : simpl never.
Arguments path.Dir : simpl never.
Arguments Sprintf_tmp_gosed : simpl never.
Arguments wrap64 : simpl never.
Arguments Z.lor : simpl never.

(** ** Tactics *)

(** One call of the system: both of its results. *)
Ltac os_call :=
  match goal with
  | |- context [time_Now_UnixNano ?w] =>
      destruct (time_Now_UnixNano w) as [? ?] eqn:?
  | |- context [os_Stat ?a ?w] =>
      destruct (os_Stat a w) as [[?|?] ?] eqn:?
  | |- context [os_OpenFile ?a ?b ?c ?w] =>
      destruct (os_OpenFile a b c w) as [[?|?] ?] eqn:?
  | |- context [os_Close ?a ?w] =>
      destruct (os_Close a w) as [[?|] ?] eqn:?
  | |- context [os_Rename ?a ?b ?w] =>
      destruct (os_Rename a b w) as [[?|] ?] eqn:?
  | |- context [os_Remove ?a ?w] =>
      destruct (os_Remove a w) as [[?|] ?] eqn:?
  | |- context [io_CopyBuffer ?a ?b ?w] =>
      destruct (io_CopyBuffer a b w) as [[? [?|]] ?] eqn:?
  end; simpl.

Ltac unmonad :=
  unfold File_Close, deferred_close in *;
  unfold mbind, M_bind, mret, M_ret, get_config, modify_config, defer, raise, lift,
    call_Now, call_Stat, call_OpenFile, call_Close, call_Rename, call_Remove,
    call_CopyBuffer in *; simpl in *.

Ltac log_eq := rewrite <- ?app_assoc; reflexivity.

(** * Properties *)

(** ** Registration *)

Lemma NewMapping_empty new c : NewMapping [] new c = (c, Some InvalidMapping).
Proof. reflexivity. Qed.

Lemma NewMapping_nonempty old new c :
  old ≠ [] → NewMapping old new c = (with_mapping old new c, None).
Proof. destruct old; [done | reflexivity]. Qed.

Lemma bytes_of_string_nil s : bytes_of_string s = [] ↔ s = "".
Proof. split; [by destruct s | by intros ->]. Qed.

Lemma NewStringMapping_empty new c :
  NewStringMapping "" new c = (c, Some InvalidMapping).
Proof. reflexivity. Qed.

Lemma NewStringMapping_nonempty old new c :
  old ≠ "" →
  NewStringMapping old new c =
    (with_mapping (bytes_of_string old) (bytes_of_string new) c, None).
Proof.
  intros Hne. unfold NewStringMapping.
  destruct (String.eqb_spec old ""); [done | reflexivity].
Qed.

Lemma NewStringMapping_NewMapping old new c :
  NewStringMapping old new c =
    NewMapping (bytes_of_string old) (bytes_of_string new) c.
Proof. destruct old; reflexivity. Qed.

(** C6: registering a mapping whose old sequence is empty fails with
    [InvalidMapping] and leaves the configuration (so the table) as it was;
    registering one whose old sequence is not empty succeeds and appends the
    pair to the table.  This holds for [NewMapping] on byte slices and for
    [NewStringMapping] on strings. *)
Theorem C6_registration (old new : bytes) (olds news : string) (c : replacerConfig) :
  (old = [] → NewMapping old new c = (c, Some InvalidMapping)) ∧
  (old ≠ [] →
     NewMapping old new c = (with_mapping old new c, None) ∧
     Keys (Mappings (NewMapping old new c).1) = Keys (Mappings c) ++ [old] ∧
     Indices (Mappings (NewMapping old new c).1) = Indices (Mappings c) ++ [new]) ∧
  (olds = "" → NewStringMapping olds news c = (c, Some InvalidMapping)) ∧
  (olds ≠ "" →
     NewStringMapping olds news c =
       (with_mapping (bytes_of_string olds) (bytes_of_string news) c, None) ∧
     Keys (Mappings (NewStringMapping olds news c).1) =
       Keys (Mappings c) ++ [bytes_of_string olds] ∧
     Indices (Mappings (NewStringMapping olds news c).1) =
       Indices (Mappings c) ++ [bytes_of_string news]).
Proof.
  split_and!.
  - intros ->. apply NewMapping_empty.
  - intros Hne. by rewrite NewMapping_nonempty.
  - intros ->. apply NewStringMapping_empty.
  - intros Hne. by rewrite NewStringMapping_nonempty.
Qed.

Lemma C6_registration_witness :
  NewMapping [] (bytes_of_string "x") (mkConfig None "f" 0 420 false (mkMappings [] []))
    = (mkConfig None "f" 0 420 false (mkMappings [] []), Some InvalidMapping) ∧
  Keys (Mappings (NewMapping (bytes_of_string "a") (bytes_of_string "x")
                    (mkConfig None "f" 0 420 false (mkMappings [] []))).1)
    = [] ++ [bytes_of_string "a"] ∧
  NewStringMapping "" "x" (mkConfig None "f" 0 420 false (mkMappings [] []))
    = (mkConfig None "f" 0 420 false (mkMappings [] []), Some InvalidMapping) ∧
  Indices (Mappings (NewStringMapping "a" "x"
                       (mkConfig None "f" 0 420 false (mkMappings [] []))).1)
    = [] ++ [bytes_of_string "x"].
Proof.
  pose proof (C6_registration [] (bytes_of_string "x") "" "x"
                (mkConfig None "f" 0 420 false (mkMappings [] []))) as (H1 & _ & H3 & _).
  pose proof (C6_registration (bytes_of_string "a") (bytes_of_string "x") "a" "x"
                (mkConfig None "f" 0 420 false (mkMappings [] []))) as (_ & H2 & _ & H4).
  split_and!.
  - apply H1. reflexivity.
  - apply H2. discriminate.
  - apply H3. reflexivity.
  - apply H4. discriminate.
Defined.

(** ** Arithmetic on [int] *)

Lemma wrap64_idemp z : wrap64 (wrap64 z) = wrap64 z.
Proof.
  unfold wrap64.
  replace ((z + 2 ^ 63) `mod` 2 ^ 64 - 2 ^ 63 + 2 ^ 63)
    with ((z + 2 ^ 63) `mod` 2 ^ 64) by lia.
  by rewrite Z.mod_mod.
Qed.

(** ** The runs of the engines, case by case *)

Section Runs.
Context {W : Type} `{!OS W}.

Lemma DoChainReplace_run (s : state W) :
  ∃ l, calls (DoChainReplace s).2 = calls s ++ l ∧
       chain_run (FilePath (config s)) (FilePerm (config s)) (Mappings (config s))
                 (DoChainReplace s).1 l ∧
       config (DoChainReplace s).2 =
         match (DoChainReplace s).1 with
         | Ret (n, None) => after_replace n (config s)
         | _ => config s
         end.
Proof.
  destruct s as [c w l]. unfold DoChainReplace. unmonad.
  do 2 os_call.
  2: { eexists; split_and!; [log_eq | constructor | done]. }
  os_call.
  2: { eexists; split_and!; [log_eq | constructor | done]. }
  destruct (build_chain (Mappings c) h) as [rd|p] eqn:Hb; simpl.
  2: { do 2 os_call; (eexists; split_and!; [log_eq | by constructor | done]). }
  os_call.
  { do 2 os_call; (eexists; split_and!; [log_eq | by constructor | done]). }
  os_call.
  { do 2 os_call; (eexists; split_and!; [log_eq | by constructor | done]). }
  os_call.
  { do 2 os_call; (eexists; split_and!; [log_eq | by constructor | done]). }
  unfold int_of_int64. rewrite wrap64_idemp.
  do 2 os_call; (eexists; split_and!; [log_eq | constructor; auto using wrap64_idemp | done]).
Qed.

Lemma DoSingleReplace_run (old new : bytes) (s : state W) :
  ∃ l, calls (DoSingleReplace old new s).2 = calls s ++ l ∧
       match (DoSingleReplace old new s).1 with
       | Ret (n, None) =>
           wrap64 n = n ∧
           pass_done (FilePath (config s)) (FilePerm (config s)) old new n l ∧
           config (DoSingleReplace old new s).2 = set_FileSize n (config s)
       | Ret (n, Some e) =>
           n = 0 ∧
           pass_failed (FilePath (config s)) (FilePerm (config s)) old new e l ∧
           config (DoSingleReplace old new s).2 = config s
       | Panic _ => False
       end.
Proof.
  destruct s as [c w l]. unfold DoSingleReplace, BytesReplacingReader_Reset. unmonad.
  do 2 os_call.
  2: { eexists; split_and!; [log_eq | done | constructor | done]. }
  os_call.
  2: { eexists; split_and!; [log_eq | done | constructor | done]. }
  os_call.
  { do 2 os_call; (eexists; split_and!; [log_eq | done | constructor | done]). }
  os_call.
  { do 2 os_call; (eexists; split_and!; [log_eq | done | constructor | done]). }
  unfold int_of_int64. rewrite !wrap64_idemp.
  do 2 os_call;
    (eexists; split_and!; [log_eq | done | constructor | done]).
Qed.

Lemma set_FileSize_same c : set_FileSize (FileSize c) c = c.
Proof. by destruct c. Qed.

Lemma set_FileSize_twice n k c : set_FileSize n (set_FileSize k c) = set_FileSize n c.
Proof. done. Qed.

Lemma sequential_loop_cons key keys i count (s : state W) :
  sequential_loop i (key :: keys) count s =
    match Indices (Mappings (config s)) !! i with
    | None => (Panic (IndexOutOfRange i (length (Indices (Mappings (config s))))), s)
    | Some new =>
        match DoSingleReplace key new s with
        | (Ret (wrote, Some e), s1) => (Ret (count, Some e), s1)
        | (Ret (wrote, None), s1) =>
            sequential_loop (S i) keys (int_add count wrote)
              (mkState (set_FileSize (int64_of_int wrote) (config s1))
                       (world s1) (calls s1))
        | (Panic p, s1) => (Panic p, s1)
        end
    end.
Proof.
  simpl. unfold mbind, M_bind, get_config, lift, index_at, modify_config.
  destruct (Indices (Mappings (config s)) !! i) as [new|]; [|done].
  by destruct (DoSingleReplace key new s) as [[[n [e|]]|p] s1].
Qed.

Lemma sequential_loop_run (keys : list bytes) : ∀ (i : nat) (count : Z) (s : state W),
  let c := config s in
  let r := sequential_loop i keys count s in
  ∃ ms ns ls,
    passes_done (FilePath c) (FilePerm c) ms ns ls ∧
    config r.2 = set_FileSize (default (FileSize c) (last ns)) c ∧
    ((r.1 = Ret (fold_left int_add ns count, None) ∧
      calls r.2 = calls s ++ ls ∧
      ms = zip keys (drop i (Indices (Mappings c))) ∧
      length ms = length keys) ∨
     (∃ old new e lf ms',
        r.1 = Ret (fold_left int_add ns count, Some e) ∧
        calls r.2 = calls s ++ ls ++ lf ∧
        pass_failed (FilePath c) (FilePerm c) old new e lf ∧
        zip keys (drop i (Indices (Mappings c))) = ms ++ (old, new) :: ms') ∨
     (r.1 = Panic (IndexOutOfRange (i + length ms) (length (Indices (Mappings c)))) ∧
      calls r.2 = calls s ++ ls ∧
      ms = zip keys (drop i (Indices (Mappings c))) ∧
      (length ms < length keys)%nat)).
Proof.
  induction keys as [|key keys IH]; intros i count s c r.
  - exists [], [], []. split; [constructor|]. split.
    { subst r c. simpl. by rewrite set_FileSize_same. }
    left. subst r. simpl. by rewrite app_nil_r.
  - subst r. rewrite sequential_loop_cons. fold c.
    destruct (Indices (Mappings c) !! i) as [new|] eqn:Hi.
    + destruct (DoSingleReplace_run key new s) as (l & Hl & Hr).
      destruct (DoSingleReplace key new s) as [[[n [e|]]|p] s1] eqn:Hrun;
        simpl in Hl, Hr; [| |done].
      * destruct Hr as (-> & Hf & Hc).
        exists [], [], []. split; [constructor|]. split.
        { simpl. by rewrite set_FileSize_same. }
        right; left. exists key, new, e, l, (zip keys (drop (S i) (Indices (Mappings c)))).
        split_and!; [done | done | done |].
        by rewrite (drop_S _ _ _ Hi).
      * destruct Hr as (Hn & Hd & Hc).
        unfold int64_of_int. rewrite Hn.
        set (s2 := mkState _ _ _).
        destruct (IH (S i) (int_add count n) s2) as (ms & ns & ls & Hp & Hcfg & Hcases).
        assert (Hc2 : config s2 = set_FileSize n c) by (subst s2; simpl; by rewrite Hc).
        rewrite Hc2 in *. simpl in Hp, Hcfg, Hcases.
        exists ((key, new) :: ms), (n :: ns), (l ++ ls). split; [by constructor|]. split.
        { rewrite Hcfg, last_cons. by destruct (last ns). }
        rewrite (drop_S _ _ _ Hi). simpl.
        destruct Hcases as [(Hr1 & Hr2 & Hr3 & Hr4)|[(o & nw & e & lf & ms' & Hr1 & Hr2 & Hr3 & Hr4)|(Hr1 & Hr2 & Hr3 & Hr4)]].
        -- left. split_and!; [done | | by f_equal | by f_equal].
           rewrite Hr2. subst s2. simpl. rewrite Hl. log_eq.
        -- right; left. exists o, nw, e, lf, ms'. split_and!; [done | | done | by f_equal].
           rewrite Hr2. subst s2. simpl. rewrite Hl. log_eq.
        -- right; right. split_and!; [ | | by f_equal | lia].
           ++ rewrite Hr1. do 2 f_equal. lia.
           ++ rewrite Hr2. subst s2. simpl. rewrite Hl. log_eq.
    + exists [], [], []. split; [constructor|]. split.
      { simpl. by rewrite set_FileSize_same. }
      right; right. rewrite (drop_ge _ i) by (by apply lookup_ge_None).
      rewrite zip_with_nil_r. simpl. rewrite Nat.add_0_r, app_nil_r. split_and!; [done..|lia].
Qed.
End Runs.

Section MoreRuns.
Context {W : Type} `{!OS W}.

Lemma DoSequentialReplace_run (s : state W) :
  let c := config s in
  let r := DoSequentialReplace s in
  ∃ ms ns ls,
    passes_done (FilePath c) (FilePerm c) ms ns ls ∧
    ((r.1 = Ret (int_sum ns, None) ∧
      calls r.2 = calls s ++ ls ∧
      ms = zip (Keys (Mappings c)) (Indices (Mappings c)) ∧
      length ms = length (Keys (Mappings c)) ∧
      config r.2 = after_replace (default (FileSize c) (last ns)) c) ∨
     (∃ old new e lf ms',
        r.1 = Ret (int_sum ns, Some e) ∧
        calls r.2 = calls s ++ ls ++ lf ∧
        pass_failed (FilePath c) (FilePerm c) old new e lf ∧
        zip (Keys (Mappings c)) (Indices (Mappings c)) = ms ++ (old, new) :: ms' ∧
        config r.2 = set_FileSize (default (FileSize c) (last ns)) c) ∨
     (r.1 = Panic (IndexOutOfRange (length ms) (length (Indices (Mappings c)))) ∧
      calls r.2 = calls s ++ ls ∧
      ms = zip (Keys (Mappings c)) (Indices (Mappings c)) ∧
      (length ms < length (Keys (Mappings c)))%nat ∧
      config r.2 = set_FileSize (default (FileSize c) (last ns)) c)).
Proof.
  intros c r.
  destruct (sequential_loop_run (Keys (Mappings c)) 0 0 s)
    as (ms & ns & ls & Hp & Hcfg & Hcases).
  fold c in Hp, Hcfg, Hcases. rewrite drop_0 in Hcases.
  exists ms, ns, ls. split; [done|].
  subst r. unfold DoSequentialReplace, mbind, M_bind, get_config. fold c.
  destruct (sequential_loop 0 (Keys (Mappings c)) 0 s) as [r1 s1].
  destruct s1 as [c1 w1 l1]. simpl in Hcfg, Hcases. subst c1.
  destruct Hcases as [(-> & Hr2 & Hr3 & Hr4)|[(o & nw & e & lf & ms' & -> & Hr2 & Hr3 & Hr4)|(-> & Hr2 & Hr3 & Hr4)]].
  - left. unmonad. by split_and!.
  - right; left. exists o, nw, e, lf, ms'. unmonad. by split_and!.
  - right; right. by split_and!.
Qed.

Lemma Reset_cases (s : state W) :
  match Reset s with
  | (Ret (Some e), s') => Mappings (config s') = Mappings (config s)
  | (Ret None, s') =>
      table_cleared (config s') ∧
      ∃ f fd f',
        File (config s) = Some f ∧ File (config s') = Some f' ∧
        FilePerm (config s') = Perm (fi_Mode fd) ∧
        calls s' = calls s ++
          [EClose f None; EStat (FilePath (config s)) (inl fd);
           EOpenFile (FilePath (config s)) O_RDWR (Perm (fi_Mode fd)) (inl f')]
  | (Panic _, _) => False
  end.
Proof.
  destruct s as [c w l]. unfold Reset. unmonad.
  destruct (File c) as [f|] eqn:Hf; simpl; [|done].
  repeat (os_call; try done).
  split; [done|]. eexists _, _, _. split_and!; try done. log_eq.
Qed.

End MoreRuns.

(** ** Readings of a log that is put together *)

Lemma closed_app l1 l2 : closed (l1 ++ l2) = closed l1 ++ closed l2.
Proof. induction l1 as [|[] l1 IH]; simpl; by rewrite ?IH. Qed.

Lemma opened_app l1 l2 : opened (l1 ++ l2) = opened l1 ++ opened l2.
Proof. induction l1 as [|[| | ? ? ? [] | | | |] l1 IH]; simpl; by rewrite ?IH. Qed.

Lemma copy_counts_app l1 l2 : copy_counts (l1 ++ l2) = copy_counts l1 ++ copy_counts l2.
Proof. induction l1 as [|[] l1 IH]; simpl; by rewrite ?IH. Qed.

Section Passes.
Variables (name : string) (perm : FileMode).

Lemma passes_done_length ms ns ls :
  passes_done name perm ms ns ls → length ns = length ms.
Proof. induction 1; simpl; by f_equal. Qed.

Lemma passes_done_copy_counts ms ns ls :
  passes_done name perm ms ns ls → copy_counts ls = ns.
Proof.
  induction 1 as [|old new n l ms ns ls Hn Hl Hls IH]; [done|].
  destruct Hl. simpl. by rewrite IH.
Qed.

Lemma passes_done_closed ms ns ls rest :
  passes_done name perm ms ns ls →
  closed (ls ++ rest) = inputs_twice (opened (ls ++ rest)) ↔
  closed rest = inputs_twice (opened rest).
Proof.
  induction 1 as [|old new n l ms ns ls Hn Hl Hls IH]; [done|].
  destruct Hl. simpl. rewrite <- IH. split; [by intros [=] | by intros ->].
Qed.

Lemma passes_done_completed ms ns ls rest :
  passes_done name perm ms ns ls →
  completed_counts (ls ++ rest) = ns ++ completed_counts rest.
Proof.
  induction 1 as [|old new n l ms ns ls Hn Hl Hls IH]; [done|].
  destruct Hl. simpl. by rewrite IH.
Qed.

Lemma pass_failed_closed old new e l :
  pass_failed name perm old new e l → closed l = inputs_twice (opened l).
Proof. by destruct 1. Qed.

Lemma pass_failed_completed old new e l :
  pass_failed name perm old new e l → completed_counts l = [].
Proof. by destruct 1. Qed.

End Passes.

(** ** More arithmetic on [int] *)

Lemma wrap64_small z : - 2 ^ 63 ≤ z < 2 ^ 63 → wrap64 z = z.
Proof. intros Hz. unfold wrap64. rewrite Z.mod_small; lia. Qed.

Lemma wrap64_add_l a b : wrap64 (wrap64 a + b) = wrap64 (a + b).
Proof.
  unfold wrap64. f_equal.
  replace ((a + 2 ^ 63) `mod` 2 ^ 64 - 2 ^ 63 + b + 2 ^ 63)
    with ((a + 2 ^ 63) `mod` 2 ^ 64 + b) by lia.
  rewrite Zplus_mod_idemp_l. f_equal. lia.
Qed.

Lemma fold_int_add ns : ∀ a,
  fold_left int_add ns (wrap64 a) = wrap64 (a + Zsum ns).
Proof.
  induction ns as [|n ns IH]; intros a; simpl.
  - by rewrite Z.add_0_r.
  - unfold int_add at 2. rewrite wrap64_add_l, IH. f_equal. lia.
Qed.

Lemma int_sum_wrap ns : int_sum ns = wrap64 (Zsum ns).
Proof.
  unfold int_sum. change 0 with (wrap64 0) at 1. by rewrite fold_int_add.
Qed.

Lemma int_sum_exact ns : - 2 ^ 63 ≤ Zsum ns < 2 ^ 63 → int_sum ns = Zsum ns.
Proof. intros Hr. rewrite int_sum_wrap. by apply wrap64_small. Qed.

(** ** The chain of readers *)

Lemma build_chain_no_keys m input :
  Keys m = [] → build_chain m input = Panic (IndexOutOfRange 0 0).
Proof. intros Hk. unfold build_chain. by rewrite Hk. Qed.

Lemma chain_loop_in_bounds indices keys : ∀ i replacer j len,
  (i + length keys ≤ length indices)%nat →
  chain_loop indices i keys replacer ≠ Panic (IndexOutOfRange j len).
Proof.
  induction keys as [|key keys IH]; intros i replacer j len Hlen; simpl in *; [done|].
  destruct i as [|i]; [apply IH; lia|].
  unfold index_at.
  destruct (lookup_lt_is_Some_2 indices (S i)) as [new Hnew]; [lia|].
  rewrite Hnew. simpl.
  destruct (NewBytesReplacingReader replacer key new) as [r|p] eqn:Hr; simpl.
  - apply IH. lia.
  - unfold NewBytesReplacingReader in Hr. destruct key; congruence.
Qed.

Lemma build_chain_in_bounds m input j len :
  Keys m ≠ [] → length (Keys m) = length (Indices m) →
  build_chain m input ≠ Panic (IndexOutOfRange j len).
Proof.
  destruct m as [[|key keys] [|new indices]]; try done.
  intros _ Hlen. unfold build_chain. simpl in *.
  destruct key; [done|]. simpl. apply chain_loop_in_bounds. simpl. lia.
Qed.

Lemma chain_loop_layers indices keys : ∀ i replacer replacer',
  chain_loop indices (S i) keys replacer = Ret replacer' →
  chain_source replacer' = chain_source replacer ∧
  chain_layers replacer' = chain_layers replacer ++ zip keys (drop (S i) indices) ∧
  (length keys ≤ length (drop (S i) indices))%nat.
Proof.
  induction keys as [|key keys IH]; intros i replacer replacer' Hrun; simpl in *.
  - injection Hrun as <-. rewrite app_nil_r. split_and!; [done..|lia].
  - unfold index_at in Hrun.
    destruct (indices !! S i) as [new|] eqn:Hnew; simpl in Hrun; [|done].
    destruct key as [|b key]; simpl in Hrun; [done|].
    apply IH in Hrun as (Hs & Hl & Hlen). simpl in Hs, Hl.
    rewrite (drop_S _ _ _ Hnew). simpl.
    split_and!; [done | by rewrite Hl, <- app_assoc | lia].
Qed.

Lemma build_chain_layers m input replacer :
  build_chain m input = Ret replacer →
  chain_source replacer = BufioReader input 8192 ∧
  chain_layers replacer = zip (Keys m) (Indices m) ∧
  length (chain_layers replacer) = length (Keys m).
Proof.
  destruct m as [[|key keys] [|new indices]]; try done.
  unfold build_chain. simpl.
  destruct key as [|b key]; simpl; [done|].
  intros (Hs & Hl & Hlen)%chain_loop_layers. simpl in *.
  rewrite Hl, Hs. split_and!; [done..|].
  simpl. rewrite length_zip_with. lia.
Qed.

(** ** The chained engine and the number of mappings *)

(** C1: the chained engine needs a mapping.  With at least one mapping
    registered (and the two slices in parallel) [Keys[0]] and [Indices[0]]
    are in bounds and no index of the run is out of range.  With no mapping
    the run never succeeds, and once both files are open the unguarded
    [Keys[0]] is out of range: the run ends in the panic "index out of range
    [0] with length 0", not in a returned error. *)
Theorem C1_chained_needs_a_mapping {W} `{!OS W} (s : state W) :
  let c := config s in
  (Keys (Mappings c) ≠ [] → table_ok c →
     is_Some (Keys (Mappings c) !! 0%nat) ∧
     is_Some (Indices (Mappings c) !! 0%nat) ∧
     ∀ i len, (DoChainReplace s).1 ≠ Panic (IndexOutOfRange i len)) ∧
  (Keys (Mappings c) = [] →
     (∀ n, (DoChainReplace s).1 ≠ Ret (n, None)) ∧
     ∀ t w1 input w2 output w3,
       time_Now_UnixNano (world s) = (t, w1) →
       os_OpenFile (FilePath c) O_RDWR (FilePerm c) w1 = (inl input, w2) →
       os_OpenFile (Sprintf_tmp_gosed t) (Z.lor O_RDWR O_CREATE) (FilePerm c) w2
         = (inl output, w3) →
       (DoChainReplace s).1 = Panic (IndexOutOfRange 0 0)).
Proof.
  intros c. split.
  - intros Hne Hok. unfold table_ok in Hok. fold c in Hok. split_and!.
    + destruct (Keys (Mappings c)); [done | by eexists].
    + destruct (Keys (Mappings c)), (Indices (Mappings c)); done.
    + intros i len Hp.
      destruct (DoChainReplace_run s) as (l & _ & Hrun & _).
      rewrite Hp in Hrun. inversion Hrun as [| |? ? ? ? ? ? Hb| | | |]; subst.
      by apply build_chain_in_bounds in Hb.
  - intros Hk. split.
    + intros n Hn.
      destruct (DoChainReplace_run s) as (l & _ & Hrun & _).
      rewrite Hn in Hrun. inversion Hrun as [| | | | | |? ? ? ? ? ? ? Hb]; subst.
      by rewrite build_chain_no_keys in Hb.
    + intros t w1 input w2 output w3 Ht Hin Hout.
      subst c. destruct s as [c w l]. unfold DoChainReplace. unmonad.
      rewrite Ht. simpl. rewrite Hin. simpl. rewrite Hout. simpl.
      rewrite build_chain_no_keys by done. simpl.
      reflexivity.
Qed.

Lemma C1_chained_needs_a_mapping_witness :
  (∀ i len, (DoChainReplace (Sim.demo [("o", "0")] 100)).1 ≠ Panic (IndexOutOfRange i len)) ∧
  (DoChainReplace (Sim.demo [] 100)).1 = Panic (IndexOutOfRange 0 0).
Proof.
  split.
  - apply (C1_chained_needs_a_mapping (Sim.demo [("o", "0")] 100)).
    + vm_compute. discriminate.
    + vm_compute. reflexivity.
  - eapply (C1_chained_needs_a_mapping (Sim.demo [] 100)).
    + vm_compute. reflexivity.
    + vm_compute. reflexivity.
    + vm_compute. reflexivity.
    + vm_compute. reflexivity.
Defined.

(** ** What comes back with an error *)

(** The chained engine on a device with 3 free bytes: the copy stops after
    3 bytes, which are in the scratch file, and the engine returns 0. *)
Lemma C2_counterexample :
  let s := Sim.demo [("o", "0")] 3 in
  let r := DoChainReplace s in
  failed r.1 0 Sim.ENOSPC ∧
  bytes_written s r.2 = 3 ∧
  Sim.content "tmp-gosed-1000" (world r.2) = Some "hel" ∧
  ¬ returns_bytes_written r.1 s r.2.
Proof.
  split_and!; [by vm_compute..|].
  intros Hclaim.
  assert (Hf : failed (DoChainReplace (Sim.demo [("o", "0")] 3)).1 0 Sim.ENOSPC)
    by (by vm_compute).
  apply Hclaim in Hf. vm_compute in Hf. discriminate.
Qed.

(** C2 (amended): a replace operation that fails returns the error together
    with the (64-bit) sum of the byte counts of the passes completed before
    the failing one, for the sequential engine, and with 0 for the chained
    engine; the bytes the failing pass wrote to its scratch file are not
    counted. *)
Theorem C2_count_on_failure {W} `{!OS W} (s : state W) (n : Z) (e : error) :
  (failed (DoSequentialReplace s).1 n e →
     ∃ l, calls (DoSequentialReplace s).2 = calls s ++ l ∧
          n = int_sum (completed_counts l)) ∧
  (failed (DoChainReplace s).1 n e → n = 0).
Proof.
  unfold failed. split.
  - intros Hr.
    destruct (DoSequentialReplace_run s) as (ms & ns & ls & Hp & Hcases).
    destruct Hcases as [(Hr1 & _)|[(o & nw & e' & lf & ms' & Hr1 & Hr2 & Hr3 & _)|(Hr1 & _)]];
      rewrite Hr in Hr1; [done| |done].
    injection Hr1 as -> ->. exists (ls ++ lf). split; [done|].
    rewrite (passes_done_completed _ _ _ _ _ _ Hp).
    by rewrite (pass_failed_completed _ _ _ _ _ _ Hr3), app_nil_r.
  - intros Hr.
    destruct (DoChainReplace_run s) as (l & _ & Hrun & _).
    rewrite Hr in Hrun. by inversion Hrun.
Qed.

Lemma C2_count_on_failure_witness :
  (∃ l, calls (DoSequentialReplace (Sim.demo [("o", "0"); ("l", "L")] 14)).2 =
          calls (Sim.demo [("o", "0"); ("l", "L")] 14) ++ l ∧
        11 = int_sum (completed_counts l)) ∧
  0 = 0.
Proof.
  split.
  - apply (C2_count_on_failure (Sim.demo [("o", "0"); ("l", "L")] 14) 11 Sim.ENOSPC).
    vm_compute. reflexivity.
  - apply (C2_count_on_failure (Sim.demo [("o", "0")] 3) 0 Sim.ENOSPC).
    vm_compute. reflexivity.
Defined.

(** ** The scratch file *)

Lemma created_app l1 l2 : created (l1 ++ l2) = created l1 ++ created l2.
Proof.
  induction l1 as [|[] l1 IH]; simpl; rewrite ?IH; try done.
  by case_match.
Qed.

Lemma passes_done_created name perm ms ns ls :
  passes_done name perm ms ns ls →
  Forall (λ p, ∃ t, p = path.Join [path.Dir name; Sprintf_tmp_gosed t]) (created ls).
Proof.
  induction 1 as [|old new n l ms ns ls Hn Hl Hls IH]; [constructor|].
  destruct Hl. simpl. constructor; [by eexists | done].
Qed.

(** Every scratch file of the sequential engine is named
    [tmp-gosed-<nanoseconds>] and joined to the directory of the working
    file. *)
Lemma DoSequentialReplace_scratch {W} `{!OS W} (s : state W) :
  ∃ l, calls (DoSequentialReplace s).2 = calls s ++ l ∧
       Forall (λ p, ∃ t, p = path.Join [path.Dir (FilePath (config s));
                                        Sprintf_tmp_gosed t]) (created l).
Proof.
  destruct (DoSequentialReplace_run s) as (ms & ns & ls & Hp & Hcases).
  apply passes_done_created in Hp.
  destruct Hcases as [(_ & Hr2 & _)|[(o & nw & e' & lf & ms' & _ & Hr2 & Hr3 & _)|(_ & Hr2 & _)]];
    eexists; (split; [exact Hr2|]); try done.
  rewrite created_app. apply Forall_app. split; [done|].
  destruct Hr3; simpl; repeat constructor; by eexists.
Qed.

(** C3: the scratch file is to be named [tmp-gosed-<nanoseconds>] in the
    directory of the working file.  For the working file [/data/f.txt] at
    time 1000 the sequential engine creates [/data/tmp-gosed-1000], in
    [/data]; the chained engine creates [tmp-gosed-1000], a path relative to
    the current directory, whose directory is [.] and not [/data]. *)
Theorem C3_chained_scratch_directory :
  let s := Sim.demo [("o", "0")] 100 in
  FilePath (config s) = "/data/f.txt" ∧
  path.Dir (FilePath (config s)) = "/data" ∧
  created (new_calls s (DoSequentialReplace s).2) = ["/data/tmp-gosed-1000"] ∧
  path.Dir "/data/tmp-gosed-1000" = "/data" ∧
  created (new_calls s (DoChainReplace s).2) = ["tmp-gosed-1000"] ∧
  path.Dir "tmp-gosed-1000" = "." ∧
  path.Dir "tmp-gosed-1000" ≠ path.Dir (FilePath (config s)).
Proof. by split_and!; vm_compute. Qed.

(** ** The deferred cleanup *)

Lemma new_calls_app {W} (s s' : state W) l :
  calls s' = calls s ++ l → new_calls s s' = l.
Proof. intros Hl. unfold new_calls. by rewrite Hl, drop_app_length. Qed.

Section Closes.
Context {W : Type} `{!OS W}.

(** Once both files of a chained run are open, its last two calls close the
    input, and no call in between is a close or an open. *)
Lemma DoChainReplace_closes (s : state W) t w1 input w2 output w3 :
  time_Now_UnixNano (world s) = (t, w1) →
  os_OpenFile (FilePath (config s)) O_RDWR (FilePerm (config s)) w1 = (inl input, w2) →
  os_OpenFile (Sprintf_tmp_gosed t) (Z.lor O_RDWR O_CREATE) (FilePerm (config s)) w2
    = (inl output, w3) →
  ∃ mid r1 r2,
    calls (DoChainReplace s).2 = calls s ++
      [ENow t;
       EOpenFile (FilePath (config s)) O_RDWR (FilePerm (config s)) (inl input);
       EOpenFile (Sprintf_tmp_gosed t) (Z.lor O_RDWR O_CREATE) (FilePerm (config s))
                 (inl output)] ++
      mid ++ [EClose input r1; EClose input r2] ∧
    closed mid = [] ∧ opened mid = [].
Proof.
  intros Ht Hin Hout. destruct s as [c w l]. unfold DoChainReplace. unmonad.
  rewrite Ht. simpl. rewrite Hin. simpl. rewrite Hout. simpl.
  destruct (build_chain (Mappings c) input) as [rd|p]; simpl.
  2: { destruct (os_Close input w3) as [r1 w4] eqn:H1; simpl.
       destruct (os_Close input w4) as [r2 w5] eqn:H2; simpl.
       exists [], r1, r2. split; [log_eq | done]. }
  destruct (io_CopyBuffer output rd w3) as [[n [e|]] w4] eqn:Hcopy; simpl.
  { destruct (os_Close input w4) as [r1 w5] eqn:H1; simpl.
    destruct (os_Close input w5) as [r2 w6] eqn:H2; simpl.
    exists [ECopyBuffer output rd (wrap64 n) (Some e)], r1, r2.
    split; [log_eq | done]. }
  destruct (os_Remove (FilePath c) w4) as [[e|] w5] eqn:Hrm; simpl.
  { destruct (os_Close input w5) as [r1 w6] eqn:H1; simpl.
    destruct (os_Close input w6) as [r2 w7] eqn:H2; simpl.
    exists [ECopyBuffer output rd (wrap64 n) None; ERemove (FilePath c) (Some e)], r1, r2.
    split; [log_eq | done]. }
  destruct (os_Rename (Sprintf_tmp_gosed t) (FilePath c) w5) as [re w6] eqn:Hrn.
  exists [ECopyBuffer output rd (wrap64 n) None; ERemove (FilePath c) None;
          ERename (Sprintf_tmp_gosed t) (FilePath c) re].
  destruct re as [e|]; simpl.
  - destruct (os_Close input w6) as [r1 w7] eqn:H1; simpl.
    destruct (os_Close input w7) as [r2 w8] eqn:H2; simpl.
    exists r1, r2. split; [log_eq | done].
  - destruct (os_Close input w6) as [r1 w7] eqn:H1; simpl.
    destruct (os_Close input w7) as [r2 w8] eqn:H2; simpl.
    exists r1, r2. split; [log_eq | done].
Qed.

(** The same for one pass of the sequential engine. *)
Lemma DoSingleReplace_closes (old new : bytes) (s : state W) t w1 input w2 output w3 :
  time_Now_UnixNano (world s) = (t, w1) →
  os_OpenFile (FilePath (config s)) O_RDWR (FilePerm (config s)) w1 = (inl input, w2) →
  os_OpenFile (path.Join [path.Dir (FilePath (config s)); Sprintf_tmp_gosed t])
              (Z.lor O_RDWR O_CREATE) (FilePerm (config s)) w2 = (inl output, w3) →
  ∃ mid r1 r2,
    calls (DoSingleReplace old new s).2 = calls s ++
      [ENow t;
       EOpenFile (FilePath (config s)) O_RDWR (FilePerm (config s)) (inl input);
       EOpenFile (path.Join [path.Dir (FilePath (config s)); Sprintf_tmp_gosed t])
                 (Z.lor O_RDWR O_CREATE) (FilePerm (config s)) (inl output)] ++
      mid ++ [EClose input r1; EClose input r2] ∧
    closed mid = [] ∧ opened mid = [].
Proof.
  intros Ht Hin Hout. destruct s as [c w l].
  unfold DoSingleReplace, BytesReplacingReader_Reset. unmonad.
  rewrite Ht. simpl. rewrite Hin. simpl. rewrite Hout. simpl.
  set (rd := BytesReplacingReader (BufioReader input 8192) old new).
  set (tmp := path.Join [path.Dir (FilePath c); Sprintf_tmp_gosed t]).
  destruct (io_CopyBuffer output rd w3) as [[n [e|]] w4] eqn:Hcopy; simpl.
  { destruct (os_Close input w4) as [r1 w5] eqn:H1; simpl.
    destruct (os_Close input w5) as [r2 w6] eqn:H2; simpl.
    exists [ECopyBuffer output rd (wrap64 n) (Some e)], r1, r2.
    split; [log_eq | done]. }
  destruct (os_Rename tmp (FilePath c) w4) as [re w5] eqn:Hrn.
  exists [ECopyBuffer output rd (wrap64 n) None; ERename tmp (FilePath c) re].
  destruct re as [e|]; simpl.
  - destruct (os_Close input w5) as [r1 w6] eqn:H1; simpl.
    destruct (os_Close input w6) as [r2 w7] eqn:H2; simpl.
    exists r1, r2. split; [log_eq | done].
  - destruct (os_Close input w5) as [r1 w6] eqn:H1; simpl.
    destruct (os_Close input w6) as [r2 w7] eqn:H2; simpl.
    exists r1, r2. split; [log_eq | done].
Qed.

Lemma sequential_loop_closed (keys : list bytes) (i : nat) (count : Z) (s : state W) :
  ∃ l, calls (sequential_loop i keys count s).2 = calls s ++ l ∧
       closed l = inputs_twice (opened l).
Proof.
  destruct (sequential_loop_run keys i count s) as (ms & ns & ls & Hp & _ & Hcases).
  destruct Hcases as [(_ & Hr2 & _)|[(o & nw & e' & lf & ms' & _ & Hr2 & Hr3 & _)|(_ & Hr2 & _)]];
    eexists; (split; [exact Hr2|]).
  - rewrite <- (app_nil_r ls). by apply (passes_done_closed _ _ _ _ _ _ Hp).
  - apply (passes_done_closed _ _ _ _ _ _ Hp). by eapply pass_failed_closed.
  - rewrite <- (app_nil_r ls). by apply (passes_done_closed _ _ _ _ _ _ Hp).
Qed.

Lemma DoSequentialReplace_calls (s : state W) :
  calls (DoSequentialReplace s).2 =
    calls (sequential_loop 0 (Keys (Mappings (config s))) 0 s).2.
Proof.
  unfold DoSequentialReplace, mbind, M_bind, get_config.
  by destruct (sequential_loop 0 (Keys (Mappings (config s))) 0 s)
    as [[[n [e|]]|p] s1].
Qed.

(** The first pass of a sequential run, once both its files are open, and
    the passes after it. *)
Lemma DoSequentialReplace_closes (s : state W) key keys new news t w1 input w2 output w3 :
  Keys (Mappings (config s)) = key :: keys →
  Indices (Mappings (config s)) = new :: news →
  time_Now_UnixNano (world s) = (t, w1) →
  os_OpenFile (FilePath (config s)) O_RDWR (FilePerm (config s)) w1 = (inl input, w2) →
  os_OpenFile (path.Join [path.Dir (FilePath (config s)); Sprintf_tmp_gosed t])
              (Z.lor O_RDWR O_CREATE) (FilePerm (config s)) w2 = (inl output, w3) →
  ∃ mid r1 r2 rest,
    calls (DoSequentialReplace s).2 = calls s ++
      [ENow t;
       EOpenFile (FilePath (config s)) O_RDWR (FilePerm (config s)) (inl input);
       EOpenFile (path.Join [path.Dir (FilePath (config s)); Sprintf_tmp_gosed t])
                 (Z.lor O_RDWR O_CREATE) (FilePerm (config s)) (inl output)] ++
      mid ++ [EClose input r1; EClose input r2] ++ rest ∧
    closed mid = [] ∧ opened mid = [] ∧
    closed rest = inputs_twice (opened rest).
Proof.
  intros Hk Hi Ht Hin Hout.
  rewrite DoSequentialReplace_calls, Hk, sequential_loop_cons, Hi. simpl.
  destruct (DoSingleReplace_closes key new s t w1 input w2 output w3 Ht Hin Hout)
    as (mid & r1 & r2 & Hl & Hc & Ho).
  exists mid, r1, r2.
  destruct (DoSingleReplace key new s) as [[[n [e|]]|p] s1]; simpl in Hl |- *.
  - exists []. by rewrite Hl.
  - set (s2 := mkState _ _ _).
    destruct (sequential_loop_closed keys 1 (int_add 0 n) s2) as (rest & Hrest & Hcl).
    exists rest. rewrite Hrest. subst s2. simpl. rewrite Hl.
    split; [|done]. repeat (rewrite <- app_assoc; simpl). done.
  - exists []. by rewrite Hl.
Qed.

End Closes.

(** C4: in both engines the deferred cleanup closes the input twice and
    never the output.  Once both files of a chained run, or of a pass of
    the sequential engine, are open, however the run goes on, its calls end
    with two closes of the input, the handle that opening the working file
    returned, and no other call of the run or of the pass closes or opens
    anything: the handles closed are the input and the input again, and the
    output is handed to no close.  In any run of either engine, files are
    opened in pairs, input then output, and the handles closed are the
    inputs of the pairs, each twice, and nothing else: no output, and no
    input whose output could not be opened. *)
Theorem C4_input_closed_twice {W} `{!OS W} (s : state W) :
  let c := config s in
  (∃ l, calls (DoSequentialReplace s).2 = calls s ++ l ∧
        closed l = inputs_twice (opened l)) ∧
  (∃ l, calls (DoChainReplace s).2 = calls s ++ l ∧
        closed l = inputs_twice (opened l)) ∧
  (∀ key keys new news t w1 input w2 output w3,
     Keys (Mappings c) = key :: keys →
     Indices (Mappings c) = new :: news →
     time_Now_UnixNano (world s) = (t, w1) →
     os_OpenFile (FilePath c) O_RDWR (FilePerm c) w1 = (inl input, w2) →
     os_OpenFile (path.Join [path.Dir (FilePath c); Sprintf_tmp_gosed t])
                 (Z.lor O_RDWR O_CREATE) (FilePerm c) w2 = (inl output, w3) →
     ∃ mid r1 r2 rest,
       calls (DoSequentialReplace s).2 = calls s ++
         [ENow t;
          EOpenFile (FilePath c) O_RDWR (FilePerm c) (inl input);
          EOpenFile (path.Join [path.Dir (FilePath c); Sprintf_tmp_gosed t])
                    (Z.lor O_RDWR O_CREATE) (FilePerm c) (inl output)] ++
         mid ++ [EClose input r1; EClose input r2] ++ rest ∧
       closed mid = [] ∧ opened mid = [] ∧
       closed rest = inputs_twice (opened rest)) ∧
  (∀ t w1 input w2 output w3,
     time_Now_UnixNano (world s) = (t, w1) →
     os_OpenFile (FilePath c) O_RDWR (FilePerm c) w1 = (inl input, w2) →
     os_OpenFile (Sprintf_tmp_gosed t) (Z.lor O_RDWR O_CREATE) (FilePerm c) w2
       = (inl output, w3) →
     ∃ mid r1 r2,
       calls (DoChainReplace s).2 = calls s ++
         [ENow t;
          EOpenFile (FilePath c) O_RDWR (FilePerm c) (inl input);
          EOpenFile (Sprintf_tmp_gosed t) (Z.lor O_RDWR O_CREATE) (FilePerm c)
                    (inl output)] ++
         mid ++ [EClose input r1; EClose input r2] ∧
       closed mid = [] ∧ opened mid = [] ∧
       closed (new_calls s (DoChainReplace s).2) = [input; input] ∧
       opened (new_calls s (DoChainReplace s).2) = [input; output]).
Proof.
  intros c. split_and!.
  - destruct (DoSequentialReplace_run s) as (ms & ns & ls & Hp & Hcases).
    destruct Hcases as [(_ & Hr2 & _)|[(o & nw & e' & lf & ms' & _ & Hr2 & Hr3 & _)|(_ & Hr2 & _)]];
      eexists; (split; [exact Hr2|]).
    + rewrite <- (app_nil_r ls). by apply (passes_done_closed _ _ _ _ _ _ Hp).
    + apply (passes_done_closed _ _ _ _ _ _ Hp). by eapply pass_failed_closed.
    + rewrite <- (app_nil_r ls). by apply (passes_done_closed _ _ _ _ _ _ Hp).
  - destruct (DoChainReplace_run s) as (l & Hl & Hrun & _).
    exists l. split; [done|]. by destruct Hrun.
  - intros key keys new news t w1 input w2 output w3. apply DoSequentialReplace_closes.
  - intros t w1 input w2 output w3 Ht Hin Hout.
    destruct (DoChainReplace_closes s t w1 input w2 output w3 Ht Hin Hout)
      as (mid & r1 & r2 & Hl & Hc & Ho).
    exists mid, r1, r2. split_and!; try done.
    + rewrite (new_calls_app _ _ _ Hl). simpl. by rewrite closed_app, Hc.
    + rewrite (new_calls_app _ _ _ Hl). simpl. by rewrite opened_app, Ho.
Qed.

Lemma C4_input_closed_twice_witness :
  (∃ t input output mid r1 r2 rest,
     calls (DoSequentialReplace (Sim.demo [("o", "0"); ("l", "L")] 100)).2 =
       calls (Sim.demo [("o", "0"); ("l", "L")] 100) ++
       [ENow t;
        EOpenFile (FilePath (config (Sim.demo [("o", "0"); ("l", "L")] 100))) O_RDWR
                  (FilePerm (config (Sim.demo [("o", "0"); ("l", "L")] 100)))
                  (inl input);
        EOpenFile (path.Join
                     [path.Dir (FilePath (config (Sim.demo [("o", "0"); ("l", "L")] 100)));
                      Sprintf_tmp_gosed t])
                  (Z.lor O_RDWR O_CREATE)
                  (FilePerm (config (Sim.demo [("o", "0"); ("l", "L")] 100)))
                  (inl output)] ++
       mid ++ [EClose input r1; EClose input r2] ++ rest ∧
     closed mid = [] ∧ opened mid = [] ∧
     closed rest = inputs_twice (opened rest)) ∧
  (∃ t input output mid r1 r2,
     calls (DoChainReplace (Sim.demo [("o", "0")] 100)).2 =
       calls (Sim.demo [("o", "0")] 100) ++
       [ENow t;
        EOpenFile (FilePath (config (Sim.demo [("o", "0")] 100))) O_RDWR
                  (FilePerm (config (Sim.demo [("o", "0")] 100))) (inl input);
        EOpenFile (Sprintf_tmp_gosed t) (Z.lor O_RDWR O_CREATE)
                  (FilePerm (config (Sim.demo [("o", "0")] 100))) (inl output)] ++
       mid ++ [EClose input r1; EClose input r2] ∧
     closed mid = [] ∧ opened mid = [] ∧
     closed (new_calls (Sim.demo [("o", "0")] 100)
                       (DoChainReplace (Sim.demo [("o", "0")] 100)).2)
       = [input; input] ∧
     opened (new_calls (Sim.demo [("o", "0")] 100)
                       (DoChainReplace (Sim.demo [("o", "0")] 100)).2)
       = [input; output]).
Proof.
  split.
  - do 3 eexists.
    eapply (proj1 (proj2 (proj2
              (C4_input_closed_twice (Sim.demo [("o", "0"); ("l", "L")] 100))))).
    + vm_compute. reflexivity.
    + vm_compute. reflexivity.
    + vm_compute. reflexivity.
    + vm_compute. reflexivity.
    + vm_compute. reflexivity.
  - do 3 eexists.
    eapply (proj2 (proj2 (proj2
              (C4_input_closed_twice (Sim.demo [("o", "0")] 100))))).
    + vm_compute. reflexivity.
    + vm_compute. reflexivity.
    + vm_compute. reflexivity.
Defined.

(** On the file system [Sim] the output of a successful chained run is left
    open: handle 1 is the input, closed; handle 2 is the output. *)
Example chained_output_left_open :
  let s' := (DoChainReplace (Sim.demo [("o", "0")] 100)).2 in
  opened (new_calls (Sim.demo [("o", "0")] 100) s') = [1%nat; 2%nat] ∧
  closed (new_calls (Sim.demo [("o", "0")] 100) s') = [1%nat; 1%nat] ∧
  Sim.fds (world s') !! 1%nat = Some (0%nat, false) ∧
  Sim.fds (world s') !! 2%nat = Some (1%nat, true).
Proof. by split_and!; vm_compute. Qed.

(** ** The steps of the chained engine *)

(** C5: a chained replace that succeeds has made exactly these calls, in
    this order: the time, the open of the working file, the creation of the
    one scratch file, one copy of the chain into the scratch file, the
    removal of the working file, the rename of the scratch file to the name
    of the working file, and the two closes.  The chain reads the buffered
    working file and carries all the mappings of the table in registration
    order, the first one nearest to the file.  In any run, successful or
    not, a rename only comes after the removal of the working file. *)
Theorem C5_chained_steps {W} `{!OS W} (s : state W) :
  let c := config s in
  (∀ n, succeeded (DoChainReplace s).1 n →
     ∃ t input output replacer r1 r2,
       chain_source replacer = BufioReader input 8192 ∧
       chain_layers replacer = zip (Keys (Mappings c)) (Indices (Mappings c)) ∧
       length (chain_layers replacer) = length (Keys (Mappings c)) ∧
       calls (DoChainReplace s).2 = calls s ++
         [ENow t;
          EOpenFile (FilePath c) O_RDWR (FilePerm c) (inl input);
          EOpenFile (Sprintf_tmp_gosed t) (Z.lor O_RDWR O_CREATE) (FilePerm c)
                    (inl output);
          ECopyBuffer output replacer n None;
          ERemove (FilePath c) None;
          ERename (Sprintf_tmp_gosed t) (FilePath c) None;
          EClose input r1; EClose input r2]) ∧
  (∃ l, calls (DoChainReplace s).2 = calls s ++ l ∧
        renames_after_remove (FilePath c) false l = true).
Proof.
  intros c. destruct (DoChainReplace_run s) as (l & Hl & Hrun & _). fold c in Hrun.
  split.
  - unfold succeeded. intros n Hn. rewrite Hn in Hrun.
    inversion Hrun as [| | | | | |t input output replacer ? r1 r2 Hb Hw]; subst.
    apply build_chain_layers in Hb as (Hs & Hlay & Hlen).
    by exists t, input, output, replacer, r1, r2.
  - exists l. split; [done|].
    destruct Hrun; simpl; rewrite ?String.eqb_refl; done.
Qed.

Lemma C5_chained_steps_witness :
  ∃ t input output replacer r1 r2,
    chain_source replacer = BufioReader input 8192 ∧
    chain_layers replacer =
      [(bytes_of_string "o", bytes_of_string "0");
       (bytes_of_string "l", bytes_of_string "L")] ∧
    length (chain_layers replacer) = 2%nat ∧
    calls (DoChainReplace (Sim.demo [("o", "0"); ("l", "L")] 100)).2 =
      calls (Sim.demo [("o", "0"); ("l", "L")] 100) ++
        [ENow t;
         EOpenFile "/data/f.txt" O_RDWR 420 (inl input);
         EOpenFile (Sprintf_tmp_gosed t) (Z.lor O_RDWR O_CREATE) 420 (inl output);
         ECopyBuffer output replacer 11 None;
         ERemove "/data/f.txt" None;
         ERename (Sprintf_tmp_gosed t) "/data/f.txt" None;
         EClose input r1; EClose input r2].
Proof.
  apply (C5_chained_steps (Sim.demo [("o", "0"); ("l", "L")] 100)).
  vm_compute. reflexivity.
Defined.

(** ** After a successful replace *)

(** C7: after a successful replace, sequential or chained, both slices of
    the table are empty.  A successful sequential replace has made one copy
    for each key of the table, each followed by its rename, and the recorded
    size of the working file is the byte count of the last of them; it is
    left as it was only when the table had no key and no pass was made.  A
    successful chained replace had a key to work on and has made its one
    copy. *)
Theorem C7_table_cleared {W} `{!OS W} (s : state W) (n : Z) :
  (succeeded (DoSequentialReplace s).1 n →
     table_cleared (config (DoSequentialReplace s).2) ∧
     ∃ l, calls (DoSequentialReplace s).2 = calls s ++ l ∧
          length (copy_counts l) = length (Keys (Mappings (config s))) ∧
          completed_counts l = copy_counts l ∧
          FileSize (config (DoSequentialReplace s).2) =
            default (FileSize (config s)) (last (copy_counts l)) ∧
          (Keys (Mappings (config s)) ≠ [] →
             ∃ k, last (copy_counts l) = Some k ∧
                  FileSize (config (DoSequentialReplace s).2) = k)) ∧
  (succeeded (DoChainReplace s).1 n →
     table_cleared (config (DoChainReplace s).2) ∧
     Keys (Mappings (config s)) ≠ [] ∧
     ∃ l, calls (DoChainReplace s).2 = calls s ++ l ∧ copy_counts l = [n]).
Proof.
  unfold succeeded. split.
  - intros Hr.
    destruct (DoSequentialReplace_run s) as (ms & ns & ls & Hp & Hcases).
    destruct Hcases as [(_ & Hr2 & _ & Hlen & Hc)|[(o & nw & e' & lf & ms' & Hr1 & _)|(Hr1 & _)]];
      [|by rewrite Hr in Hr1..].
    rewrite Hc. split; [done|]. exists ls. split; [done|].
    pose proof (passes_done_length _ _ _ _ _ Hp) as Hns.
    pose proof (passes_done_completed _ _ _ _ _ [] Hp) as Hcomp.
    rewrite !app_nil_r in Hcomp.
    rewrite (passes_done_copy_counts _ _ _ _ _ Hp).
    split_and!; [lia | done | done |].
    intros Hne. simpl.
    destruct (last ns) as [k|] eqn:Hlast; [by exists k|].
    apply last_None in Hlast. subst ns.
    destruct (Keys (Mappings (config s))); [done | simpl in *; lia].
  - intros Hr.
    destruct (DoChainReplace_run s) as (l & Hl & Hrun & Hc).
    rewrite Hr in Hc, Hrun. rewrite Hc. split; [done|].
    inversion Hrun as [| | | | | |? ? ? ? ? ? ? Hb]; subst. split.
    + intros Hk. by rewrite build_chain_no_keys in Hb.
    + by eexists.
Qed.

Lemma C7_table_cleared_witness :
  (table_cleared (config (DoSequentialReplace (Sim.demo [("o", "0"); ("l", "")] 100)).2) ∧
   ∃ l, calls (DoSequentialReplace (Sim.demo [("o", "0"); ("l", "")] 100)).2 =
          calls (Sim.demo [("o", "0"); ("l", "")] 100) ++ l ∧
        length (copy_counts l) =
          length (Keys (Mappings (config (Sim.demo [("o", "0"); ("l", "")] 100)))) ∧
        completed_counts l = copy_counts l ∧
        FileSize (config (DoSequentialReplace (Sim.demo [("o", "0"); ("l", "")] 100)).2) =
          default (FileSize (config (Sim.demo [("o", "0"); ("l", "")] 100)))
                  (last (copy_counts l)) ∧
        (Keys (Mappings (config (Sim.demo [("o", "0"); ("l", "")] 100))) ≠ [] →
           ∃ k, last (copy_counts l) = Some k ∧
                FileSize (config (DoSequentialReplace
                                    (Sim.demo [("o", "0"); ("l", "")] 100)).2) = k)) ∧
  (table_cleared (config (DoChainReplace (Sim.demo [("o", "0"); ("l", "")] 100)).2) ∧
   Keys (Mappings (config (Sim.demo [("o", "0"); ("l", "")] 100))) ≠ [] ∧
   ∃ l, calls (DoChainReplace (Sim.demo [("o", "0"); ("l", "")] 100)).2 =
          calls (Sim.demo [("o", "0"); ("l", "")] 100) ++ l ∧
        copy_counts l = [8]).
Proof.
  split.
  - refine (proj1 (C7_table_cleared (Sim.demo [("o", "0"); ("l", "")] 100) 19) _).
    vm_compute. reflexivity.
  - refine (proj2 (C7_table_cleared (Sim.demo [("o", "0"); ("l", "")] 100) 8) _).
    vm_compute. reflexivity.
Defined.

(** ** The count of a successful replace *)

(** C9: a successful sequential replace returns the sum of the byte counts
    of all its passes, one pass for each mapping (the sum is taken on [int],
    and is the exact sum when that fits in 64 bits), while the size it
    records for the file is the count of the last pass alone; a successful
    chained replace makes one copy and returns its byte count. *)
Theorem C9_returned_count {W} `{!OS W} (s : state W) (n : Z) :
  (succeeded (DoSequentialReplace s).1 n →
     ∃ l, calls (DoSequentialReplace s).2 = calls s ++ l ∧
          length (copy_counts l) = length (Keys (Mappings (config s))) ∧
          n = int_sum (copy_counts l) ∧
          (- 2 ^ 63 ≤ Zsum (copy_counts l) < 2 ^ 63 → n = Zsum (copy_counts l)) ∧
          FileSize (config (DoSequentialReplace s).2) =
            default (FileSize (config s)) (last (copy_counts l))) ∧
  (succeeded (DoChainReplace s).1 n →
     ∃ l, calls (DoChainReplace s).2 = calls s ++ l ∧
          copy_counts l = [n] ∧
          FileSize (config (DoChainReplace s).2) = n).
Proof.
  unfold succeeded. split.
  - intros Hr.
    destruct (DoSequentialReplace_run s) as (ms & ns & ls & Hp & Hcases).
    destruct Hcases as [(Hr1 & Hr2 & _ & Hlen & Hc)|[(o & nw & e' & lf & ms' & Hr1 & _)|(Hr1 & _)]];
      [|by rewrite Hr in Hr1..].
    rewrite Hr in Hr1. injection Hr1 as ->.
    exists ls. rewrite (passes_done_copy_counts _ _ _ _ _ Hp).
    split_and!; [done | | done | apply int_sum_exact | by rewrite Hc].
    by rewrite (passes_done_length _ _ _ _ _ Hp).
  - intros Hr.
    destruct (DoChainReplace_run s) as (l & Hl & Hrun & Hc).
    rewrite Hr in Hrun, Hc. exists l. rewrite Hc.
    inversion Hrun; subst. by split_and!.
Qed.

Lemma C9_returned_count_witness :
  (∃ l, calls (DoSequentialReplace (Sim.demo [("o", "0"); ("l", "")] 100)).2 =
          calls (Sim.demo [("o", "0"); ("l", "")] 100) ++ l ∧
        length (copy_counts l) =
          length (Keys (Mappings (config (Sim.demo [("o", "0"); ("l", "")] 100)))) ∧
        19 = int_sum (copy_counts l) ∧
        (- 2 ^ 63 ≤ Zsum (copy_counts l) < 2 ^ 63 → 19 = Zsum (copy_counts l)) ∧
        FileSize (config (DoSequentialReplace (Sim.demo [("o", "0"); ("l", "")] 100)).2) =
          default (FileSize (config (Sim.demo [("o", "0"); ("l", "")] 100)))
                  (last (copy_counts l))) ∧
  (∃ l, calls (DoChainReplace (Sim.demo [("o", "0"); ("l", "")] 100)).2 =
          calls (Sim.demo [("o", "0"); ("l", "")] 100) ++ l ∧
        copy_counts l = [8] ∧
        FileSize (config (DoChainReplace (Sim.demo [("o", "0"); ("l", "")] 100)).2) = 8).
Proof.
  split.
  - refine (proj1 (C9_returned_count (Sim.demo [("o", "0"); ("l", "")] 100) 19) _).
    vm_compute. reflexivity.
  - refine (proj2 (C9_returned_count (Sim.demo [("o", "0"); ("l", "")] 100) 8) _).
    vm_compute. reflexivity.
Defined.

(** The sequential engine on "hello world" with o -> 0 and then l -> "":
    the passes write 11 and 8 bytes, the engine returns 19, and the file is
    left with 8 bytes. *)
Example sequential_count_is_not_the_size :
  let r := DoSequentialReplace (Sim.demo [("o", "0"); ("l", "")] 100) in
  r.1 = Ret (19, None) ∧
  copy_counts (new_calls (Sim.demo [("o", "0"); ("l", "")] 100) r.2) = [11; 8] ∧
  Sim.content "/data/f.txt" (world r.2) = Some "he0 w0rd" ∧
  FileSize (config r.2) = 8.
Proof. by split_and!; vm_compute. Qed.

(** ** The invariant of the table *)

Lemma with_mapping_ok old new c : table_ok c → table_ok (with_mapping old new c).
Proof. unfold table_ok. simpl. rewrite !length_app. simpl. lia. Qed.

Lemma NewMapping_ok old new c : table_ok c → table_ok (NewMapping old new c).1.
Proof.
  intros Hok. destruct old as [|b old]; [done|].
  rewrite NewMapping_nonempty by done. by apply with_mapping_ok.
Qed.

Lemma NewReplacer_ok {W} `{!OS W} fileName (w : W) l c w' l' :
  NewReplacer fileName w l = (inl c, w', l') → table_ok c.
Proof.
  unfold NewReplacer. repeat (os_call; try done). by intros [= <- _ _].
Qed.

(** C8: the two slices of the table always have the same length.  The table
    [NewReplacer] returns has it, and every operation keeps it, whatever its
    outcome: [NewMapping], [NewStringMapping], [Reset],
    [DoSequentialReplace] and [DoChainReplace]. *)
Theorem C8_table_invariant {W} `{!OS W} (s : state W)
    (old new : bytes) (olds news : string) :
  (∀ fileName w l c w' l',
     NewReplacer fileName w l = (inl c, w', l') → table_ok c) ∧
  (table_ok (config s) →
     table_ok (NewMapping old new (config s)).1 ∧
     table_ok (NewStringMapping olds news (config s)).1 ∧
     table_ok (config (Reset s).2) ∧
     table_ok (config (DoSequentialReplace s).2) ∧
     table_ok (config (DoChainReplace s).2)).
Proof.
  split; [intros *; apply NewReplacer_ok|].
  intros Hok. split_and!.
  - by apply NewMapping_ok.
  - rewrite NewStringMapping_NewMapping. by apply NewMapping_ok.
  - pose proof (Reset_cases s) as Hr.
    destruct (Reset s) as [[[e|]|p] s']; simpl; [| |done].
    + unfold table_ok in *. by rewrite Hr.
    + destruct Hr as [[Hk Hi] _]. unfold table_ok. by rewrite Hk, Hi.
  - destruct (DoSequentialReplace_run s) as (ms & ns & ls & Hp & Hcases).
    destruct Hcases as [(_ & _ & _ & _ & ->)|[(o & nw & e' & lf & ms' & _ & _ & _ & _ & ->)|(_ & _ & _ & _ & ->)]];
      done.
  - destruct (DoChainReplace_run s) as (l & _ & _ & Hc). rewrite Hc.
    by destruct (DoChainReplace s).1 as [[n [e|]]|p].
Qed.

Lemma C8_table_invariant_witness :
  table_ok (NewMapping (bytes_of_string "l") [] (config (Sim.demo [("o", "0")] 100))).1 ∧
  table_ok (NewStringMapping "" "x" (config (Sim.demo [("o", "0")] 100))).1 ∧
  table_ok (config (Reset (Sim.demo [("o", "0")] 100)).2) ∧
  table_ok (config (DoSequentialReplace (Sim.demo [("o", "0")] 100)).2) ∧
  table_ok (config (DoChainReplace (Sim.demo [("o", "0")] 100)).2).
Proof.
  apply (C8_table_invariant (Sim.demo [("o", "0")] 100)).
  vm_compute. reflexivity.
Defined.

(** ** Reset *)

(** C10: [Reset] leaves the table as it was whenever it returns an error
    (from the close, the stat or the open); when it returns none, the
    working file was closed, examined and opened again, in this order and
    each without error, and the table is empty.  [Reset] always returns. *)
Theorem C10_reset_atomic {W} `{!OS W} (s : state W) :
  (∀ e, (Reset s).1 = Ret (Some e) →
     Mappings (config (Reset s).2) = Mappings (config s)) ∧
  ((Reset s).1 = Ret None →
     table_cleared (config (Reset s).2) ∧
     ∃ f fd f',
       File (config s) = Some f ∧
       calls (Reset s).2 = calls s ++
         [EClose f None;
          EStat (FilePath (config s)) (inl fd);
          EOpenFile (FilePath (config s)) O_RDWR (Perm (fi_Mode fd)) (inl f')]) ∧
  (∃ r, (Reset s).1 = Ret r).
Proof.
  pose proof (Reset_cases s) as Hr.
  destruct (Reset s) as [[[e|]|p] s']; simpl; [| |done].
  - split_and!; [by intros ? [= ->] | done | by eexists].
  - destruct Hr as (Hc & f & fd & f' & Hf & _ & _ & Hl).
    split_and!; [done | | by eexists].
    intros _. split; [done|]. by exists f, fd, f'.
Qed.

Lemma C10_reset_atomic_witness :
  Mappings (config (Reset (Sim.file_gone (Sim.demo [("o", "0")] 100))).2) =
    Mappings (config (Sim.file_gone (Sim.demo [("o", "0")] 100))) ∧
  table_cleared (config (Reset (Sim.demo [("o", "0")] 100)).2).
Proof.
  split.
  - refine (proj1 (C10_reset_atomic (Sim.file_gone (Sim.demo [("o", "0")] 100)))
                   Sim.ENOENT _).
    vm_compute. reflexivity.
  - refine (proj1 (proj1 (proj2 (C10_reset_atomic (Sim.demo [("o", "0")] 100))) _)).
    vm_compute. reflexivity.
Defined.

(** * Further properties of the code *)

(** ** NewReplacer *)

(** X1: [NewReplacer] examines the file and then opens it read-write with
    the permission bits it found.  It fails with the error of [os.Stat],
    having opened nothing, or with the error of [os.OpenFile]; when it
    succeeds the Replacer holds the handle, the name, the size and the
    permission bits found, and an empty table. *)
Theorem X1_NewReplacer_result {W} `{!OS W} (fileName : string) (w : W)
    (l : list event) :
  match NewReplacer fileName w l with
  | (inl c, _, l') =>
      ∃ fd fi,
        l' = l ++ [EStat fileName (inl fd);
                   EOpenFile fileName O_RDWR (Perm (fi_Mode fd)) (inl fi)] ∧
        c = mkConfig (Some fi) fileName (fi_Size fd) (Perm (fi_Mode fd)) false
                     (mkMappings [] [])
  | (inr e, _, l') =>
      l' = l ++ [EStat fileName (inr e)] ∨
      ∃ fd, l' = l ++ [EStat fileName (inl fd);
                       EOpenFile fileName O_RDWR (Perm (fi_Mode fd)) (inr e)]
  end.
Proof.
  unfold NewReplacer. os_call; [|by left].
  os_call.
  - eexists _, _. split; [log_eq | done].
  - right. eexists. log_eq.
Qed.

(** ** Registrations, one after the other *)

Lemma register_all_strings_cons old new ms c :
  register_all_strings ((old, new) :: ms) c =
    register_all_strings ms (NewStringMapping old new c).1.
Proof. reflexivity. Qed.

(** X2: registrations of strings accumulate in order.  After a caller has
    handed the pairs [ms] to [NewStringMapping] one by one, the table holds
    what it held before followed by the bytes of the pairs of [ms] whose old
    string is not empty, in the order of [ms]; the refused pairs leave no
    trace, and nothing else of the configuration changes. *)
Theorem X2_registrations_accumulate (ms : list (string * string)) (c : replacerConfig) :
  let kept := filter (λ m, m.1 ≠ "") ms in
  register_all_strings ms c =
    mkConfig (File c) (FilePath c) (FileSize c) (FilePerm c) (Asynchronous c)
             (mkMappings
                (Keys (Mappings c) ++ ((λ m, bytes_of_string m.1) <$> kept))
                (Indices (Mappings c) ++ ((λ m, bytes_of_string m.2) <$> kept))).
Proof.
  cbv zeta. revert c. induction ms as [|[old new] ms IH]; intros c.
  - simpl. rewrite !app_nil_r. by destruct c as [? ? ? ? ? []].
  - rewrite register_all_strings_cons, IH.
    destruct (decide (old = "")) as [->|Hne].
    + rewrite filter_cons_False by naive_solver. by rewrite NewStringMapping_empty.
    + rewrite filter_cons_True by done.
      rewrite NewStringMapping_nonempty by done. simpl. by rewrite <- !app_assoc.
Qed.

(** ** Non-empty keys *)

Lemma NewMapping_keys_nonempty old new c :
  keys_nonempty c → keys_nonempty (NewMapping old new c).1.
Proof.
  intros Hk. destruct old as [|b old]; [done|].
  rewrite NewMapping_nonempty by done. unfold keys_nonempty. simpl.
  apply Forall_app. split; [done|]. by repeat constructor.
Qed.

(** X3: no key of the table is empty.  The table of [NewReplacer] has no
    key, a registration adds a key only if it is not empty, and [Reset] and
    the two engines add none, whatever their outcome. *)
Theorem X3_keys_nonempty {W} `{!OS W} (s : state W)
    (old new : bytes) (olds news : string) :
  (∀ fileName w l c w' l',
     NewReplacer fileName w l = (inl c, w', l') → keys_nonempty c) ∧
  (keys_nonempty (config s) →
     keys_nonempty (NewMapping old new (config s)).1 ∧
     keys_nonempty (NewStringMapping olds news (config s)).1 ∧
     keys_nonempty (config (Reset s).2) ∧
     keys_nonempty (config (DoSequentialReplace s).2) ∧
     keys_nonempty (config (DoChainReplace s).2)).
Proof.
  split.
  - intros fileName w l c w' l'. unfold NewReplacer.
    repeat (os_call; try done). intros [= <- _ _]. constructor.
  - intros Hk. split_and!.
    + by apply NewMapping_keys_nonempty.
    + rewrite NewStringMapping_NewMapping. by apply NewMapping_keys_nonempty.
    + pose proof (Reset_cases s) as Hr.
      destruct (Reset s) as [[[e|]|p] s']; simpl; [| |done].
      * unfold keys_nonempty in *. by rewrite Hr.
      * destruct Hr as [[Hkeys _] _]. unfold keys_nonempty. rewrite Hkeys. constructor.
    + destruct (DoSequentialReplace_run s) as (ms & ns & ls & Hp & Hcases).
      destruct Hcases as [(_ & _ & _ & _ & ->)|[(o & nw & e' & lf & ms' & _ & _ & _ & _ & ->)|(_ & _ & _ & _ & ->)]];
        try done. constructor.
    + destruct (DoChainReplace_run s) as (l & _ & _ & Hc). rewrite Hc.
      destruct (DoChainReplace s).1 as [[n [e|]]|p]; try done. constructor.
Qed.

Lemma X3_keys_nonempty_witness :
  keys_nonempty (config (Sim.demo [] 100)) ∧
  keys_nonempty (NewMapping (bytes_of_string "l") [] (config (Sim.demo [("o", "0")] 100))).1 ∧
  keys_nonempty (NewStringMapping "" "x" (config (Sim.demo [("o", "0")] 100))).1 ∧
  keys_nonempty (config (Reset (Sim.demo [("o", "0")] 100)).2) ∧
  keys_nonempty (config (DoSequentialReplace (Sim.demo [("o", "0")] 100)).2) ∧
  keys_nonempty (config (DoChainReplace (Sim.demo [("o", "0")] 100)).2).
Proof.
  split.
  - eapply (proj1 (X3_keys_nonempty (Sim.demo [] 100) [] [] "" "") "/data/f.txt"
                  (Sim.one_file "/data/f.txt" "hello world" 420 1000 100) []).
    vm_compute. reflexivity.
  - refine (proj2 (X3_keys_nonempty (Sim.demo [("o", "0")] 100) _ _ _ _) _).
    apply (bool_decide_unpack _). vm_compute. exact I.
Defined.

(** ** The bounds of the sequential engine *)

(** X4: with the two slices of the table in parallel, [Indices[index]] is
    in bounds at every turn of the loop of the sequential engine: no run
    ends in an index panic. *)
Theorem X4_sequential_in_bounds {W} `{!OS W} (s : state W) :
  table_ok (config s) →
  ∀ i len, (DoSequentialReplace s).1 ≠ Panic (IndexOutOfRange i len).
Proof.
  intros Hok i len Hpanic.
  destruct (DoSequentialReplace_run s) as (ms & ns & ls & Hp & Hcases).
  destruct Hcases as [(Hr1 & _)|[(o & nw & e' & lf & ms' & Hr1 & _)|(_ & _ & Hms & Hlen & _)]];
    [by rewrite Hpanic in Hr1..|].
  subst ms. rewrite length_zip_with in Hlen. unfold table_ok in Hok. lia.
Qed.

Lemma X4_sequential_in_bounds_witness :
  (DoSequentialReplace (Sim.demo [("o", "0"); ("l", "L")] 14)).1
    ≠ Panic (IndexOutOfRange 1 1).
Proof.
  apply (X4_sequential_in_bounds (Sim.demo [("o", "0"); ("l", "L")] 14)).
  vm_compute. reflexivity.
Defined.

(** ** Reset on a Replacer without a file *)

(** X5: [Reset] stores what [os.OpenFile] returns before it looks at the
    error, so a [Reset] that fails in opening the file again leaves the
    Replacer with a nil [File]; and on a nil [File] [Reset] fails with
    [os.ErrInvalid] at once, calls nothing and changes nothing.  A Replacer
    whose [Reset] once failed in the open can never be reset again. *)
Theorem X5_reset_without_file {W} `{!OS W} (s : state W) :
  (File (config s) = None → Reset s = (Ret (Some ErrInvalid), s)) ∧
  (∀ f w1 fd w2 e w3,
     File (config s) = Some f →
     os_Close f (world s) = (None, w1) →
     os_Stat (FilePath (config s)) w1 = (inl fd, w2) →
     os_OpenFile (FilePath (config s)) O_RDWR (Perm (fi_Mode fd)) w2 = (inr e, w3) →
     (Reset s).1 = Ret (Some e) ∧
     File (config (Reset s).2) = None ∧
     Reset (Reset s).2 = (Ret (Some ErrInvalid), (Reset s).2)).
Proof.
  split.
  - intros Hf. destruct s as [c w l]. unfold Reset. unmonad. by rewrite Hf.
  - intros f w1 fd w2 e w3 Hf Hclose Hstat Hopen.
    destruct s as [c w l]. unfold Reset. unmonad.
    rewrite Hf. simpl. rewrite Hclose. simpl. rewrite Hstat. simpl.
    rewrite Hopen. simpl. done.
Qed.

Lemma X5_reset_without_file_witness :
  ((@Reset _ (Sim.faulty Sim.no_open) (Sim.demo [("o", "0")] 100)).1
     = Ret (Some Sim.EACCES) ∧
   File (config (@Reset _ (Sim.faulty Sim.no_open) (Sim.demo [("o", "0")] 100)).2)
     = None ∧
   @Reset _ (Sim.faulty Sim.no_open)
          (@Reset _ (Sim.faulty Sim.no_open) (Sim.demo [("o", "0")] 100)).2
     = (Ret (Some ErrInvalid),
        (@Reset _ (Sim.faulty Sim.no_open) (Sim.demo [("o", "0")] 100)).2)) ∧
  Reset (@Reset _ (Sim.faulty Sim.no_open) (Sim.demo [("o", "0")] 100)).2
    = (Ret (Some ErrInvalid),
       (@Reset _ (Sim.faulty Sim.no_open) (Sim.demo [("o", "0")] 100)).2).
Proof.
  split.
  - eapply (proj2 (@X5_reset_without_file _ (Sim.faulty Sim.no_open)
                     (Sim.demo [("o", "0")] 100))).
    + vm_compute. reflexivity.
    + vm_compute. reflexivity.
    + vm_compute. reflexivity.
    + vm_compute. reflexivity.
  - refine (proj1 (X5_reset_without_file
                     (@Reset _ (Sim.faulty Sim.no_open)
                             (Sim.demo [("o", "0")] 100)).2) _).
    vm_compute. reflexivity.
Defined.

(** ** What Reset and the engines leave alone *)

(** X6: [Reset] examines the file again but keeps the size it had recorded:
    whatever its outcome, [FilePath], [FileSize] and [Asynchronous] are as
    before, and [FilePerm] changes only when [Reset] succeeds, to the
    permission bits just found. *)
Theorem X6_reset_keeps_size {W} `{!OS W} (s : state W) :
  FilePath (config (Reset s).2) = FilePath (config s) ∧
  FileSize (config (Reset s).2) = FileSize (config s) ∧
  Asynchronous (config (Reset s).2) = Asynchronous (config s) ∧
  (FilePerm (config (Reset s).2) = FilePerm (config s) ∨
   (Reset s).1 = Ret None ∧
   ∃ fd, EStat (FilePath (config s)) (inl fd) ∈ calls (Reset s).2 ∧
         FilePerm (config (Reset s).2) = Perm (fi_Mode fd)).
Proof.
  destruct s as [c w l]. unfold Reset. unmonad.
  destruct (File c) as [f|]; simpl; [|by split_and!; try left].
  os_call; [by split_and!; try left|].
  os_call; [|by split_and!; try left].
  os_call; [|by split_and!; try left].
  split_and!; try done. right. split; [done|]. eexists. split; [|done].
  set_solver.
Qed.

(** X7: the engines work on files they open themselves: whatever the
    outcome of a replace, sequential or chained, the handle [File] of the
    Replacer, its [FilePath], [FilePerm] and [Asynchronous] are as before. *)
Theorem X7_engines_keep_file {W} `{!OS W} (s : state W) :
  let same (c' : replacerConfig) :=
    File c' = File (config s) ∧ FilePath c' = FilePath (config s) ∧
    FilePerm c' = FilePerm (config s) ∧ Asynchronous c' = Asynchronous (config s) in
  same (config (DoSequentialReplace s).2) ∧ same (config (DoChainReplace s).2).
Proof.
  split.
  - destruct (DoSequentialReplace_run s) as (ms & ns & ls & Hp & Hcases).
    destruct Hcases as [(_ & _ & _ & _ & ->)|[(o & nw & e' & lf & ms' & _ & _ & _ & _ & ->)|(_ & _ & _ & _ & ->)]];
      done.
  - destruct (DoChainReplace_run s) as (l & _ & _ & Hc). rewrite Hc.
    by destruct (DoChainReplace s).1 as [[n [e|]]|p].
Qed.

(** ** After a replace that did not succeed *)

(** X8: a replace that does not succeed consumes no mapping.  When a run of
    either engine ends with an error or a panic the table is as it was; the
    chained engine then leaves the whole configuration as it was, and the
    sequential engine leaves as recorded size the byte count of its last
    completed pass. *)
Theorem X8_failure_keeps_table {W} `{!OS W} (s : state W) :
  ((∀ n, ¬ succeeded (DoSequentialReplace s).1 n) →
     Mappings (config (DoSequentialReplace s).2) = Mappings (config s) ∧
     ∃ l, calls (DoSequentialReplace s).2 = calls s ++ l ∧
          FileSize (config (DoSequentialReplace s).2) =
            default (FileSize (config s)) (last (completed_counts l))) ∧
  ((∀ n, ¬ succeeded (DoChainReplace s).1 n) →
     config (DoChainReplace s).2 = config s).
Proof.
  unfold succeeded. split.
  - intros Hfail.
    destruct (DoSequentialReplace_run s) as (ms & ns & ls & Hp & Hcases).
    destruct Hcases as [(Hr1 & _)|[(o & nw & e' & lf & ms' & _ & Hr2 & Hr3 & _ & ->)|(_ & Hr2 & _ & _ & ->)]];
      [by apply Hfail in Hr1| |]; (split; [done|]).
    + exists (ls ++ lf). split; [done|].
      rewrite (passes_done_completed _ _ _ _ _ _ Hp).
      by rewrite (pass_failed_completed _ _ _ _ _ _ Hr3), app_nil_r.
    + exists ls. split; [done|].
      rewrite <- (app_nil_r ls) at 1.
      rewrite (passes_done_completed _ _ _ _ _ _ Hp). by rewrite app_nil_r.
  - intros Hfail.
    destruct (DoChainReplace_run s) as (l & _ & _ & Hc). rewrite Hc.
    destruct (DoChainReplace s).1 as [[n [e|]]|p]; try done. by destruct (Hfail n).
Qed.

Lemma X8_failure_keeps_table_witness :
  (Mappings (config (DoSequentialReplace (Sim.demo [("o", "0"); ("l", "L")] 14)).2) =
     Mappings (config (Sim.demo [("o", "0"); ("l", "L")] 14)) ∧
   ∃ l, calls (DoSequentialReplace (Sim.demo [("o", "0"); ("l", "L")] 14)).2 =
          calls (Sim.demo [("o", "0"); ("l", "L")] 14) ++ l ∧
        FileSize (config (DoSequentialReplace (Sim.demo [("o", "0"); ("l", "L")] 14)).2) =
          default (FileSize (config (Sim.demo [("o", "0"); ("l", "L")] 14)))
                  (last (completed_counts l))) ∧
  config (DoChainReplace (Sim.demo [("o", "0")] 3)).2 = config (Sim.demo [("o", "0")] 3).
Proof.
  split.
  - refine (proj1 (X8_failure_keeps_table (Sim.demo [("o", "0"); ("l", "L")] 14)) _).
    intros n. vm_compute. discriminate.
  - refine (proj2 (X8_failure_keeps_table (Sim.demo [("o", "0")] 3)) _).
    intros n. vm_compute. discriminate.
Defined.

(** ** The sequential engine with nothing to do *)

(** X9: with no key in the table the sequential engine has nothing to do:
    it returns [(0, nil)] without a single call to the system, leaves the
    world and the recorded size as they are, and the table empty.  (The
    chained engine panics on the same table once its files are open.) *)
Theorem X9_sequential_without_mappings {W} `{!OS W} (s : state W) :
  Keys (Mappings (config s)) = [] →
  (DoSequentialReplace s).1 = Ret (0, None) ∧
  calls (DoSequentialReplace s).2 = calls s ∧
  world (DoSequentialReplace s).2 = world s ∧
  config (DoSequentialReplace s).2 = after_replace (FileSize (config s)) (config s).
Proof.
  intros Hk. destruct s as [c w l]. unfold DoSequentialReplace. unmonad.
  rewrite Hk. simpl. by split_and!.
Qed.

Lemma X9_sequential_without_mappings_witness :
  (DoSequentialReplace (Sim.demo [] 100)).1 = Ret (0, None) ∧
  calls (DoSequentialReplace (Sim.demo [] 100)).2 = calls (Sim.demo [] 100) ∧
  world (DoSequentialReplace (Sim.demo [] 100)).2 = world (Sim.demo [] 100) ∧
  config (DoSequentialReplace (Sim.demo [] 100)).2 =
    after_replace (FileSize (config (Sim.demo [] 100))) (config (Sim.demo [] 100)).
Proof.
  apply (X9_sequential_without_mappings (Sim.demo [] 100)).
  vm_compute. reflexivity.
Defined.

(** ** More on the calls of the passes *)

Lemma times_app l1 l2 : times (l1 ++ l2) = times l1 ++ times l2.
Proof. induction l1 as [|[] l1 IH]; simpl; by rewrite ?IH. Qed.

Lemma copy_mappings_app l1 l2 :
  copy_mappings (l1 ++ l2) = copy_mappings l1 ++ copy_mappings l2.
Proof.
  induction l1 as [|[| | | |? [] | |] l1 IH]; simpl; by rewrite ?IH.
Qed.

Lemma open_perms_app l1 l2 : open_perms (l1 ++ l2) = open_perms l1 ++ open_perms l2.
Proof. induction l1 as [|[] l1 IH]; simpl; by rewrite ?IH. Qed.

Section MorePasses.
Variables (name : string) (perm : FileMode).

Lemma passes_done_times ms ns ls :
  passes_done name perm ms ns ls →
  created ls = scratch_of_pass name <$> times ls.
Proof.
  induction 1 as [|old new n l ms ns ls Hn Hl Hls IH]; [done|].
  destruct Hl. simpl. by rewrite IH.
Qed.

Lemma pass_failed_times old new e l :
  pass_failed name perm old new e l →
  created l `prefix_of` scratch_of_pass name <$> times l.
Proof. destruct 1; simpl; [by exists [scratch_of_pass name t] | done..]. Qed.

Lemma passes_done_no_remove ms ns ls :
  passes_done name perm ms ns ls →
  Forall (λ e, is_Remove e = false ∧ is_Stat e = false) ls.
Proof.
  induction 1 as [|old new n l ms ns ls Hn Hl Hls IH]; [constructor|].
  apply Forall_app. split; [|done]. destruct Hl. by repeat constructor.
Qed.

Lemma pass_failed_no_remove old new e l :
  pass_failed name perm old new e l →
  Forall (λ e, is_Remove e = false ∧ is_Stat e = false) l.
Proof. destruct 1; by repeat constructor. Qed.

Lemma passes_done_mappings ms ns ls :
  passes_done name perm ms ns ls → copy_mappings ls = ms.
Proof.
  induction 1 as [|old new n l ms ns ls Hn Hl Hls IH]; [done|].
  destruct Hl. simpl. by rewrite IH.
Qed.

Lemma pass_failed_mappings old new e l :
  pass_failed name perm old new e l →
  copy_mappings l = [] ∨ copy_mappings l = [(old, new)].
Proof. destruct 1; simpl; auto. Qed.

Lemma passes_done_perms ms ns ls :
  passes_done name perm ms ns ls → Forall (λ p, p = perm) (open_perms ls).
Proof.
  induction 1 as [|old new n l ms ns ls Hn Hl Hls IH]; [constructor|].
  rewrite open_perms_app. apply Forall_app. split; [|done].
  destruct Hl. by repeat constructor.
Qed.

Lemma pass_failed_perms old new e l :
  pass_failed name perm old new e l → Forall (λ p, p = perm) (open_perms l).
Proof. destruct 1; by repeat constructor. Qed.

End MorePasses.

(** ** The scratch files and the clock *)

(** X10: every scratch file is named after a reading of the clock made in
    the same run.  The sequential engine reads the time once for each pass
    and creates [tmp-gosed-<time>] joined to the directory of the working
    file; the chained engine reads the time once and creates
    [tmp-gosed-<time>] as it is.  A time read is left without a scratch file
    only when the working file could not be opened. *)
Theorem X10_scratch_named_after_time {W} `{!OS W} (s : state W) :
  (∃ l, calls (DoSequentialReplace s).2 = calls s ++ l ∧
        created l `prefix_of`
          (λ t, path.Join [path.Dir (FilePath (config s)); Sprintf_tmp_gosed t])
            <$> times l ∧
        (length (times l) ≤ S (length (created l)))%nat) ∧
  (∃ l t, calls (DoChainReplace s).2 = calls s ++ l ∧
          times l = [t] ∧
          created l `prefix_of` [Sprintf_tmp_gosed t]).
Proof.
  split.
  - destruct (DoSequentialReplace_run s) as (ms & ns & ls & Hp & Hcases).
    pose proof (passes_done_times _ _ _ _ _ Hp) as Ht.
    fold (scratch_of_pass (FilePath (config s))).
    destruct Hcases as [(_ & Hr2 & _)|[(o & nw & e' & lf & ms' & _ & Hr2 & Hr3 & _)|(_ & Hr2 & _)]];
      eexists; (split; [exact Hr2|]).
    + rewrite Ht, length_fmap. split; [done | lia].
    + rewrite created_app, times_app, fmap_app, Ht, !length_app, length_fmap.
      split.
      * destruct (pass_failed_times _ _ _ _ _ _ Hr3) as [k ->].
        exists k. by rewrite app_assoc.
      * destruct Hr3; simpl; lia.
    + rewrite Ht, length_fmap. split; [done | lia].
  - destruct (DoChainReplace_run s) as (l & Hl & Hrun & _).
    destruct Hrun; eexists _, _; (split; [exact Hl|]); simpl; split; try done.
    by eexists.
Qed.

(** ** What the engines never call *)

(** X11: the sequential engine replaces the working file by renaming over
    it: it never calls [os.Remove].  Neither engine calls [os.Stat]: the
    scratch files get the permission bits the Replacer recorded, which are
    the ones handed to every [os.OpenFile] of a run. *)
Theorem X11_no_remove_no_stat {W} `{!OS W} (s : state W) :
  (∃ l, calls (DoSequentialReplace s).2 = calls s ++ l ∧
        Forall (λ e, is_Remove e = false ∧ is_Stat e = false) l ∧
        Forall (λ p, p = FilePerm (config s)) (open_perms l)) ∧
  (∃ l, calls (DoChainReplace s).2 = calls s ++ l ∧
        Forall (λ e, is_Stat e = false) l ∧
        Forall (λ p, p = FilePerm (config s)) (open_perms l)).
Proof.
  split.
  - destruct (DoSequentialReplace_run s) as (ms & ns & ls & Hp & Hcases).
    pose proof (passes_done_no_remove _ _ _ _ _ Hp) as Hn.
    pose proof (passes_done_perms _ _ _ _ _ Hp) as Hperm.
    destruct Hcases as [(_ & Hr2 & _)|[(o & nw & e' & lf & ms' & _ & Hr2 & Hr3 & _)|(_ & Hr2 & _)]];
      eexists; (split; [exact Hr2|]); try done.
    rewrite open_perms_app. split; apply Forall_app; split; try done.
    + by eapply pass_failed_no_remove.
    + by eapply pass_failed_perms.
  - destruct (DoChainReplace_run s) as (l & Hl & Hrun & _).
    exists l. split; [done|]. destruct Hrun; split; by repeat constructor.
Qed.

(** ** The order of the passes *)

(** X12: the sequential engine takes the mappings in registration order,
    one pass each, and stops at the first pass that fails.  The mappings of
    the copies of a run are a prefix of the table (the keys paired with the
    replacements), and the whole table when the run succeeds. *)
Theorem X12_passes_in_registration_order {W} `{!OS W} (s : state W) :
  let table := zip (Keys (Mappings (config s))) (Indices (Mappings (config s))) in
  ∃ l, calls (DoSequentialReplace s).2 = calls s ++ l ∧
       copy_mappings l `prefix_of` table ∧
       (∀ n, succeeded (DoSequentialReplace s).1 n →
          copy_mappings l = table ∧
          length (copy_mappings l) = length (Keys (Mappings (config s)))).
Proof.
  intros table. unfold succeeded.
  destruct (DoSequentialReplace_run s) as (ms & ns & ls & Hp & Hcases).
  pose proof (passes_done_mappings _ _ _ _ _ Hp) as Hm. fold table in Hcases.
  destruct Hcases as [(_ & Hr2 & Hr3 & Hr4 & _)|[(o & nw & e' & lf & ms' & Hr1 & Hr2 & Hr3 & Hr4 & _)|(Hr1 & Hr2 & Hr3 & _)]];
    eexists; (split; [exact Hr2|]).
  - rewrite Hm. split; [by subst ms|]. intros _ _. by subst ms.
  - rewrite copy_mappings_app, Hm, Hr4. split; [|intros n Hn; by rewrite Hn in Hr1].
    destruct (pass_failed_mappings _ _ _ _ _ _ Hr3) as [-> | ->].
    + rewrite app_nil_r. by eexists.
    + exists ms'. by rewrite <- app_assoc.
  - rewrite Hm. split; [by subst ms|]. intros n Hn. by rewrite Hn in Hr1.
Qed.

Lemma X12_passes_in_registration_order_witness :
  ∃ l, calls (DoSequentialReplace (Sim.demo [("o", "0"); ("l", "")] 100)).2 =
         calls (Sim.demo [("o", "0"); ("l", "")] 100) ++ l ∧
       copy_mappings l =
         zip (Keys (Mappings (config (Sim.demo [("o", "0"); ("l", "")] 100))))
             (Indices (Mappings (config (Sim.demo [("o", "0"); ("l", "")] 100)))).
Proof.
  destruct (X12_passes_in_registration_order (Sim.demo [("o", "0"); ("l", "")] 100))
    as (l & Hl & _ & Hs).
  exists l. split; [exact Hl|].
  refine (proj1 (Hs 19 _)). vm_compute. reflexivity.
Defined.

(** ** Early returns and what they leave behind *)

(** X13: the deferred closes are registered only after both files are
    open.  When the working file opens and the scratch file cannot be
    created, either engine returns [(0, err)] with the error of the open,
    having made no other call: the input just opened is never closed, and
    the configuration is untouched. *)
Theorem X13_input_left_open {W} `{!OS W} (s : state W) :
  let c := config s in
  (∀ key keys new news t w1 input w2 e w3,
     Keys (Mappings c) = key :: keys →
     Indices (Mappings c) = new :: news →
     time_Now_UnixNano (world s) = (t, w1) →
     os_OpenFile (FilePath c) O_RDWR (FilePerm c) w1 = (inl input, w2) →
     os_OpenFile (path.Join [path.Dir (FilePath c); Sprintf_tmp_gosed t])
                 (Z.lor O_RDWR O_CREATE) (FilePerm c) w2 = (inr e, w3) →
     DoSequentialReplace s =
       (Ret (0, Some e),
        mkState c w3
          (calls s ++
             [ENow t;
              EOpenFile (FilePath c) O_RDWR (FilePerm c) (inl input);
              EOpenFile (path.Join [path.Dir (FilePath c); Sprintf_tmp_gosed t])
                        (Z.lor O_RDWR O_CREATE) (FilePerm c) (inr e)]))) ∧
  (∀ t w1 input w2 e w3,
     time_Now_UnixNano (world s) = (t, w1) →
     os_OpenFile (FilePath c) O_RDWR (FilePerm c) w1 = (inl input, w2) →
     os_OpenFile (Sprintf_tmp_gosed t) (Z.lor O_RDWR O_CREATE) (FilePerm c) w2
       = (inr e, w3) →
     DoChainReplace s =
       (Ret (0, Some e),
        mkState c w3
          (calls s ++
             [ENow t;
              EOpenFile (FilePath c) O_RDWR (FilePerm c) (inl input);
              EOpenFile (Sprintf_tmp_gosed t) (Z.lor O_RDWR O_CREATE) (FilePerm c)
                        (inr e)]))).
Proof.
  intros c. subst c. destruct s as [c w l]. split.
  - intros key keys new news t w1 input w2 e w3 Hk Hi Ht Hin Hout.
    unfold DoSequentialReplace. unmonad. rewrite Hk. simpl.
    unfold DoSingleReplace, index_at. unmonad. rewrite Hi. simpl.
    rewrite Ht. simpl. rewrite Hin. simpl. rewrite Hout. simpl.
    unfold logged. simpl. do 2 f_equal. log_eq.
  - intros t w1 input w2 e w3 Ht Hin Hout.
    unfold DoChainReplace. unmonad.
    rewrite Ht. simpl. rewrite Hin. simpl. rewrite Hout. simpl.
    unfold logged. simpl. do 2 f_equal. log_eq.
Qed.

Lemma X13_input_left_open_witness :
  (∃ s', @DoSequentialReplace _ (Sim.faulty Sim.no_create)
            (Sim.demo [("o", "0")] 100) = (Ret (0, Some Sim.EACCES), s')) ∧
  (∃ s', @DoChainReplace _ (Sim.faulty Sim.no_create)
            (Sim.demo [("o", "0")] 100) = (Ret (0, Some Sim.EACCES), s')).
Proof.
  split.
  - eexists.
    eapply (proj1 (@X13_input_left_open _ (Sim.faulty Sim.no_create)
                     (Sim.demo [("o", "0")] 100))).
    + vm_compute. reflexivity.
    + vm_compute. reflexivity.
    + vm_compute. reflexivity.
    + vm_compute. reflexivity.
    + vm_compute. reflexivity.
  - eexists.
    eapply (proj2 (@X13_input_left_open _ (Sim.faulty Sim.no_create)
                     (Sim.demo [("o", "0")] 100))).
    + vm_compute. reflexivity.
    + vm_compute. reflexivity.
    + vm_compute. reflexivity.
Defined.

(** X14: the chained engine on an empty table, once both files are open,
    panics after it has created the scratch file and before any copy: the
    deferred closes run, the scratch file stays where it was created, the
    working file is neither removed nor renamed over, and the configuration
    is untouched. *)
Theorem X14_chained_panic_leaves_scratch {W} `{!OS W} (s : state W) :
  let c := config s in
  ∀ t w1 input w2 output w3 r1 w4 r2 w5,
    Keys (Mappings c) = [] →
    time_Now_UnixNano (world s) = (t, w1) →
    os_OpenFile (FilePath c) O_RDWR (FilePerm c) w1 = (inl input, w2) →
    os_OpenFile (Sprintf_tmp_gosed t) (Z.lor O_RDWR O_CREATE) (FilePerm c) w2
      = (inl output, w3) →
    os_Close input w3 = (r1, w4) →
    os_Close input w4 = (r2, w5) →
    DoChainReplace s =
      (Panic (IndexOutOfRange 0 0),
       mkState c w5
         (calls s ++
            [ENow t;
             EOpenFile (FilePath c) O_RDWR (FilePerm c) (inl input);
             EOpenFile (Sprintf_tmp_gosed t) (Z.lor O_RDWR O_CREATE) (FilePerm c)
                       (inl output);
             EClose input r1; EClose input r2])).
Proof.
  intros c. subst c. destruct s as [c w l].
  intros t w1 input w2 output w3 r1 w4 r2 w5 Hk Ht Hin Hout Hc1 Hc2.
  unfold DoChainReplace. unmonad.
  rewrite Ht. simpl. rewrite Hin. simpl. rewrite Hout. simpl.
  rewrite build_chain_no_keys by done. simpl.
  rewrite Hc1. simpl. rewrite Hc2. simpl.
  unfold logged. simpl. do 2 f_equal. log_eq.
Qed.

Lemma X14_chained_panic_leaves_scratch_witness :
  ∃ s', DoChainReplace (Sim.demo [] 100) = (Panic (IndexOutOfRange 0 0), s').
Proof.
  eexists.
  eapply (X14_chained_panic_leaves_scratch (Sim.demo [] 100)).
  - vm_compute. reflexivity.
  - vm_compute. reflexivity.
  - vm_compute. reflexivity.
  - vm_compute. reflexivity.
  - vm_compute. reflexivity.
  - vm_compute. reflexivity.
Defined.

(** On the file system [Sim]: after the panic the empty scratch file is
    there and the working file is as it was. *)
Example chained_panic_on_sim :
  let s' := (DoChainReplace (Sim.demo [] 100)).2 in
  Sim.content "tmp-gosed-1000" (world s') = Some "" ∧
  Sim.content "/data/f.txt" (world s') = Some "hello world".
Proof. by split_and!; vm_compute. Qed.

(** X15: the chained engine removes the working file before it renames the
    scratch file.  When the copy and the removal succeed and the rename
    fails, the engine returns [(0, err)] with the error of the rename and
    an untouched configuration, table included: the working file is gone,
    and the new content is only in the scratch file. *)
Theorem X15_chained_rename_failure {W} `{!OS W} (s : state W) :
  let c := config s in
  ∀ t w1 input w2 output w3 replacer n w4 w5 e w6 r1 w7 r2 w8,
    time_Now_UnixNano (world s) = (t, w1) →
    os_OpenFile (FilePath c) O_RDWR (FilePerm c) w1 = (inl input, w2) →
    os_OpenFile (Sprintf_tmp_gosed t) (Z.lor O_RDWR O_CREATE) (FilePerm c) w2
      = (inl output, w3) →
    build_chain (Mappings c) input = Ret replacer →
    io_CopyBuffer output replacer w3 = ((n, None), w4) →
    os_Remove (FilePath c) w4 = (None, w5) →
    os_Rename (Sprintf_tmp_gosed t) (FilePath c) w5 = (Some e, w6) →
    os_Close input w6 = (r1, w7) →
    os_Close input w7 = (r2, w8) →
    DoChainReplace s =
      (Ret (0, Some e),
       mkState c w8
         (calls s ++
            [ENow t;
             EOpenFile (FilePath c) O_RDWR (FilePerm c) (inl input);
             EOpenFile (Sprintf_tmp_gosed t) (Z.lor O_RDWR O_CREATE) (FilePerm c)
                       (inl output);
             ECopyBuffer output replacer (wrap64 n) None;
             ERemove (FilePath c) None;
             ERename (Sprintf_tmp_gosed t) (FilePath c) (Some e);
             EClose input r1; EClose input r2])).
Proof.
  intros c. subst c. destruct s as [c w l].
  intros t w1 input w2 output w3 replacer n w4 w5 e w6 r1 w7 r2 w8
    Ht Hin Hout Hb Hcopy Hrm Hrn Hc1 Hc2.
  unfold DoChainReplace. unmonad.
  rewrite Ht. simpl. rewrite Hin. simpl. rewrite Hout. simpl.
  rewrite Hb. simpl. rewrite Hcopy. simpl. rewrite Hrm. simpl.
  rewrite Hrn. simpl. rewrite Hc1. simpl. rewrite Hc2. simpl.
  unfold logged. simpl. do 2 f_equal. log_eq.
Qed.

Lemma X15_chained_rename_failure_witness :
  ∃ s', @DoChainReplace _ (Sim.faulty Sim.no_rename) (Sim.demo [("o", "0")] 100)
          = (Ret (0, Some Sim.EACCES), s').
Proof.
  eexists.
  eapply (@X15_chained_rename_failure _ (Sim.faulty Sim.no_rename)
            (Sim.demo [("o", "0")] 100)).
  - vm_compute. reflexivity.
  - vm_compute. reflexivity.
  - vm_compute. reflexivity.
  - vm_compute. reflexivity.
  - vm_compute. reflexivity.
  - vm_compute. reflexivity.
  - vm_compute. reflexivity.
  - vm_compute. reflexivity.
  - vm_compute. reflexivity.
Defined.

(** On the file system [Sim] with renames refused: the working file is gone
    and its new content is in the scratch file. *)
Example chained_rename_failure_on_sim :
  let s' := (@DoChainReplace _ (Sim.faulty Sim.no_rename)
               (Sim.demo [("o", "0")] 100)).2 in
  Sim.content "/data/f.txt" (world s') = None ∧
  Sim.content "tmp-gosed-1000" (world s') = Some "hell0 w0rld" ∧
  Keys (Mappings (config s')) = [bytes_of_string "o"].
Proof. by split_and!; vm_compute. Qed.

(** ** The permission bits *)




(** ** One replace after another *)

Lemma sequential_on_cleared_table {W} `{!OS W} (s : state W) :
  table_cleared (config s) → DoSequentialReplace s = (Ret (0, None), s).
Proof.
  intros [Hk Hi]. destruct s as [[f name size perm async [keys indices]] w l].
  simpl in *. subst. reflexivity.
Qed.

Lemma chained_on_cleared_table {W} `{!OS W} (s : state W) (n : Z) :
  table_cleared (config s) → ¬ succeeded (DoChainReplace s).1 n.
Proof.
  intros [Hk _] Hn. unfold succeeded in Hn.
  destruct (DoChainReplace_run s) as (l & _ & Hrun & _).
  rewrite Hn in Hrun. inversion Hrun as [| | | | | |? ? ? ? ? ? ? Hb]; subst.
  by rewrite build_chain_no_keys in Hb.
Qed.

(** X17: a successful replace consumes the mappings.  Right after a replace
    that succeeded, by either engine, a sequential replace returns
    [(0, nil)] and changes nothing at all (no call, same configuration),
    and a chained replace cannot succeed, until mappings are registered
    again. *)
Theorem X17_replace_consumes_mappings {W} `{!OS W} (s : state W) (n : Z) :
  (succeeded (DoSequentialReplace s).1 n →
     DoSequentialReplace (DoSequentialReplace s).2 =
       (Ret (0, None), (DoSequentialReplace s).2) ∧
     ∀ m, ¬ succeeded (DoChainReplace (DoSequentialReplace s).2).1 m) ∧
  (succeeded (DoChainReplace s).1 n →
     DoSequentialReplace (DoChainReplace s).2 =
       (Ret (0, None), (DoChainReplace s).2) ∧
     ∀ m, ¬ succeeded (DoChainReplace (DoChainReplace s).2).1 m).
Proof.
  split; intros Hn.
  - assert (table_cleared (config (DoSequentialReplace s).2)) as Hc.
    { destruct (DoSequentialReplace_run s) as (ms & ns & ls & Hp & Hcases).
      unfold succeeded in Hn.
      destruct Hcases as [(_ & _ & _ & _ & ->)|[(o & nw & e' & lf & ms' & Hr1 & _)|(Hr1 & _)]];
        [done|by rewrite Hn in Hr1..]. }
    split; [by apply sequential_on_cleared_table|].
    intros m. by apply chained_on_cleared_table.
  - assert (table_cleared (config (DoChainReplace s).2)) as Hc.
    { destruct (DoChainReplace_run s) as (l & _ & _ & Hc).
      unfold succeeded in Hn. rewrite Hn in Hc. by rewrite Hc. }
    split; [by apply sequential_on_cleared_table|].
    intros m. by apply chained_on_cleared_table.
Qed.

Lemma X17_replace_consumes_mappings_witness :
  (DoSequentialReplace (DoSequentialReplace (Sim.demo [("o", "0"); ("l", "")] 100)).2 =
     (Ret (0, None), (DoSequentialReplace (Sim.demo [("o", "0"); ("l", "")] 100)).2) ∧
   ∀ m, ¬ succeeded
          (DoChainReplace
             (DoSequentialReplace (Sim.demo [("o", "0"); ("l", "")] 100)).2).1 m) ∧
  (DoSequentialReplace (DoChainReplace (Sim.demo [("o", "0"); ("l", "")] 100)).2 =
     (Ret (0, None), (DoChainReplace (Sim.demo [("o", "0"); ("l", "")] 100)).2) ∧
   ∀ m, ¬ succeeded
          (DoChainReplace
             (DoChainReplace (Sim.demo [("o", "0"); ("l", "")] 100)).2).1 m).
Proof.
  split.
  - refine (proj1 (X17_replace_consumes_mappings
                     (Sim.demo [("o", "0"); ("l", "")] 100) 19) _).
    vm_compute. reflexivity.
  - refine (proj2 (X17_replace_consumes_mappings
                     (Sim.demo [("o", "0"); ("l", "")] 100) 8) _).
    vm_compute. reflexivity.
Defined.

(** X18: a sequential replace that failed can be run again, and starts
    again with the first mapping.  The table is as it was before the failed
    run, so the passes of the second run take the mappings of the table of
    the first run from the start, those of the passes the first run had
    completed included. *)
Theorem X18_retry_starts_over {W} `{!OS W} (s : state W) (n : Z) (e : error) :
  let table := zip (Keys (Mappings (config s))) (Indices (Mappings (config s))) in
  failed (DoSequentialReplace s).1 n e →
  ∃ l1 l2,
    calls (DoSequentialReplace s).2 = calls s ++ l1 ∧
    calls (DoSequentialReplace (DoSequentialReplace s).2).2 = calls s ++ l1 ++ l2 ∧
    copy_mappings l1 `prefix_of` table ∧
    copy_mappings l2 `prefix_of` table ∧
    (∀ m, succeeded (DoSequentialReplace (DoSequentialReplace s).2).1 m →
       copy_mappings l2 = table).
Proof.
  intros table Hfail. unfold failed in Hfail.
  assert (∀ s0 : state W, ∃ l,
    calls (DoSequentialReplace s0).2 = calls s0 ++ l ∧
    ((∀ m, ¬ succeeded (DoSequentialReplace s0).1 m) →
       Mappings (config (DoSequentialReplace s0).2) = Mappings (config s0)) ∧
    copy_mappings l `prefix_of`
      zip (Keys (Mappings (config s0))) (Indices (Mappings (config s0))) ∧
    (∀ m, succeeded (DoSequentialReplace s0).1 m →
       copy_mappings l =
         zip (Keys (Mappings (config s0))) (Indices (Mappings (config s0)))))
    as Hrun.
  { intros s0. unfold succeeded.
    destruct (DoSequentialReplace_run s0) as (ms & ns & ls & Hp & Hcases).
    pose proof (passes_done_mappings _ _ _ _ _ Hp) as Hm.
    destruct Hcases as [(Hr1 & Hr2 & Hr3 & _ & _)|[(o & nw & e' & lf & ms' & Hr1 & Hr2 & Hr3 & Hr4 & ->)|(Hr1 & Hr2 & Hr3 & _ & ->)]];
      eexists; (split; [exact Hr2|]).
    - rewrite Hm. split_and!; [|by subst ms|by subst ms].
      intros Hno. by apply Hno in Hr1.
    - rewrite copy_mappings_app, Hm, Hr4.
      split_and!; [done| |intros m Hs; by rewrite Hs in Hr1].
      destruct (pass_failed_mappings _ _ _ _ _ _ Hr3) as [-> | ->].
      + rewrite app_nil_r. by eexists.
      + exists ms'. by rewrite <- app_assoc.
    - rewrite Hm. split_and!; [done|by subst ms|intros m Hs; by rewrite Hs in Hr1]. }
  destruct (Hrun s) as (l1 & Hl1 & Hsame & Hp1 & _).
  destruct (Hrun (DoSequentialReplace s).2) as (l2 & Hl2 & _ & Hp2 & Hs2).
  rewrite Hsame in Hp2, Hs2
    by (intros m Hm; unfold succeeded in Hm; by rewrite Hfail in Hm).
  exists l1, l2. split_and!; try done.
  by rewrite Hl2, Hl1, <- app_assoc.
Qed.

Lemma X18_retry_starts_over_witness :
  ∃ l1 l2,
    calls (DoSequentialReplace (Sim.demo [("o", "0"); ("l", "L")] 14)).2 =
      calls (Sim.demo [("o", "0"); ("l", "L")] 14) ++ l1 ∧
    calls (DoSequentialReplace
             (DoSequentialReplace (Sim.demo [("o", "0"); ("l", "L")] 14)).2).2 =
      calls (Sim.demo [("o", "0"); ("l", "L")] 14) ++ l1 ++ l2 ∧
    copy_mappings l1 `prefix_of`
      zip (Keys (Mappings (config (Sim.demo [("o", "0"); ("l", "L")] 14))))
          (Indices (Mappings (config (Sim.demo [("o", "0"); ("l", "L")] 14)))) ∧
    copy_mappings l2 `prefix_of`
      zip (Keys (Mappings (config (Sim.demo [("o", "0"); ("l", "L")] 14))))
          (Indices (Mappings (config (Sim.demo [("o", "0"); ("l", "L")] 14)))).
Proof.
  destruct (X18_retry_starts_over (Sim.demo [("o", "0"); ("l", "L")] 14) 11 Sim.ENOSPC)
    as (l1 & l2 & H1 & H2 & H3 & H4 & _).
  - vm_compute. reflexivity.
  - exists l1, l2. exact (conj H1 (conj H2 (conj H3 H4))).
Defined.
